(** * Chat evaluation notebook: evaluators, target wrapper and harness

    A shallow embedding of [sessions/2_1_chat_eval.ipynb].  The notebook
    defines two evaluators ([correctness], an LLM-as-judge check, and
    [conciseness], a length check), the application [my_app] with its
    wrapper [ls_target], and a five-example dataset.  Python dictionaries
    with string keys are finite maps, Python strings are lists of code
    points, a raised exception is the left injection of a sum, and the
    hosted chat model is an interface over an explicit world state. *)

From Stdlib Require Import ZArith String Ascii List Lia.
From stdpp Require Import gmap strings list fin_maps.

Local Open Scope Z_scope.

(** ** Python values *)

(** A Python [str] is a sequence of Unicode code points; [len] counts them. *)
Definition str : Type := list N.

Definition len (s : str) : Z := Z.of_nat (length s).

(** The ASCII literals of the notebook, as code-point sequences. *)
Definition py (s : string) : str := N_of_ascii <$> list_ascii_of_string s.

(** The exceptions the notebook's functions can raise: a missing
    dictionary key, or a failure of the hosted chat-completion call. *)
Inductive exn : Type :=
  | KeyError (key : string)
  | ExternalError (msg : str).

#[global] Instance exn_eq_dec : EqDecision exn.
Proof. solve_decision. Defined.

(** Computations that either raise or return. *)
#[global] Instance raise_ret : MRet (sum exn) := λ A a, inr a.
#[global] Instance raise_bind : MBind (sum exn) :=
  λ A B f m, match m with inl e => inl e | inr a => f a end.

(** [d[k]] on a dictionary: the value, or [KeyError]. *)
Definition getitem (d : gmap string str) (k : string) : exn + str :=
  match d !! k with
  | Some v => inr v
  | None => inl (KeyError k)
  end.

(** ** The conciseness evaluator

    [int(len(outputs["response"]) < 2 * len(reference_outputs["answer"]))]:
    the comparison is wrapped in [int], so the value is the integer 1 or 0
    (equal to [True] and [False] under Python's [==]).  The left operand
    is evaluated first. *)
Definition conciseness (outputs reference_outputs : gmap string str) : exn + Z :=
  r ← getitem outputs "response";
  a ← getitem reference_outputs "answer";
  mret (Z.b2z (len r <? 2 * len a)).

(** Python truthiness of an integer score. *)
Definition truthy (score : Z) : bool := negb (score =? 0).

(** ** Conciseness on values of any type

    The values of a dictionary need not be strings.  [len] is then an
    operation that may itself raise ([TypeError] on [None] or on a
    number), and it is applied to the response before the reference
    answer is looked up. *)
Inductive raised (Err : Type) : Type :=
  | Lookup (key : string)
  | InLen (e : Err).

Arguments Lookup {Err} key.
Arguments InLen {Err} e.

(** The body of [conciseness] over any type of values, [len] being what
    Python's [len] does on them: [Lookup k] is [KeyError(k)], and
    [InLen e] is the exception [e] that [len] raised. *)
Definition conciseness_any {Val Err : Type} (py_len : Val → Err + Z)
    (outputs reference_outputs : gmap string Val) : raised Err + Z :=
  match outputs !! "response" with
  | None => inl (Lookup "response")
  | Some r =>
      match py_len r with
      | inl e => inl (InLen e)
      | inr n =>
          match reference_outputs !! "answer" with
          | None => inl (Lookup "answer")
          | Some a =>
              match py_len a with
              | inl e => inl (InLen e)
              | inr m => inr (Z.b2z (n <? 2 * m))
              end
          end
      end
  end.

(** [len] on a value that is a string or [None]: [len(None)] raises
    [TypeError]. *)
Inductive len_error : Type := LenTypeError.

Definition len_or_none (v : option str) : len_error + Z :=
  match v with
  | Some s => inr (len s)
  | None => inl LenTypeError
  end.

(** ** The hosted chat model

    [ChatOpenAI(model=..., temperature=...).invoke(messages).content] is a
    call to a hosted service: it may fail, and its answer may differ from
    one call to the next.  The service is an interface over a world state
    that every call reads and advances. *)
Record Message : Type := { role : string; content : str }.

Record ChatOpenAI : Type := { model : string; temperature : Z }.

Class Chat (World : Type) : Type :=
  invoke : ChatOpenAI → list Message → World → (exn + str) * World.

(** Computations over the world state that either raise or return. *)
Definition M (World A : Type) : Type := World → (exn + A) * World.

#[global] Instance M_ret {World} : MRet (M World) := λ A a w, (inr a, w).
#[global] Instance M_bind {World} : MBind (M World) :=
  λ A B f m w,
    match m w with
    | (inl e, w') => (inl e, w')
    | (inr a, w') => f a w'
    end.

(** A computation that does not touch the world. *)
Definition lift {World A} (r : exn + A) : M World A := λ w, (r, w).

Definition nl : string := String "010"%char EmptyString.

(** A triple-quoted literal, line by line; every line ends in a newline. *)
Definition unlines (ls : list string) : string :=
  foldr (λ l acc, l +:+ nl +:+ acc) EmptyString ls.

Section Notebook.
Context {World : Type} `{!Chat World}.

(** ** The judged-correctness evaluator *)

Definition llm : ChatOpenAI :=
  {| model := "gpt-4.1-2025-04-14"; temperature := 0 |}.

Definition eval_instructions : str :=
  py (unlines
    [ "";
      "You are an expert data labeler evaluating model outputs for correctness. Your task is to grade the response as CORRECT or INCORRECT based on the following rubric:";
      "";
      "<Rubric>";
      "A correct answer:";
      "- Provides accurate and complete information";
      "- Contains no factual errors";
      "- Addresses all parts of the question";
      "- Is logically consistent";
      "- Uses precise and accurate terminology";
      "</Rubric>" ]).

(** The f-string of [correctness], with its three replacement fields. *)
Definition user_content (question answer response : str) : str :=
  py ("You are grading the following question:" +:+ nl +:+ "    ")
  ++ question
  ++ py (nl +:+ "    Here is the real answer:" +:+ nl +:+ "    ")
  ++ answer
  ++ py (nl +:+ "    You are grading the following predicted answer:"
         +:+ nl +:+ "    ")
  ++ response
  ++ py (nl +:+ "    Respond with CORRECT or INCORRECT:" +:+ nl
         +:+ "    Grade:" +:+ nl +:+ "    ").

(** The prompt the judge receives. *)
Definition judge_messages (question answer response : str) : list Message :=
  [ {| role := "system"; content := eval_instructions |};
    {| role := "user"; content := user_content question answer response |} ].

(** The replacement fields are looked up left to right, then the judge
    is called, then its raw text is compared with ["CORRECT"]. *)
Definition correctness
    (inputs outputs reference_outputs : gmap string str) : M World bool :=
  question ← lift (getitem inputs "question");
  answer ← lift (getitem reference_outputs "answer");
  predicted ← lift (getitem outputs "response");
  response ← invoke llm (judge_messages question answer predicted);
  mret (bool_decide (response = py "CORRECT")).

(** ** The application and its wrapper *)

Definition default_instructions : str :=
  py "Respond to the users question in a short, concise manner.".

Definition default_model : string := "gpt-4.1-nano-2025-04-14".

Definition my_app (question : str) (model : string) (instructions : str)
    : M World str :=
  invoke {| model := model; temperature := 1 |}
    [ {| role := "system"; content := instructions |};
      {| role := "user"; content := question |} ].

(** [{"response": my_app(inputs["question"])}], with the defaults of
    [my_app] for the model and the instructions. *)
Definition ls_target (inputs : gmap string str) : M World (gmap string str) :=
  question ← lift (getitem inputs "question");
  answer ← my_app question default_model default_instructions;
  mret {[ "response" := answer ]}.

(** An evaluator the way the harness calls it: it is handed the inputs
    only when its signature names them, and [conciseness] does not. *)
Definition conciseness_evaluator
    (inputs outputs reference_outputs : gmap string str) : M World Z :=
  lift (conciseness outputs reference_outputs).

End Notebook.

(** ** The evaluators' bodies as expressions

    To speak of two invocations of an evaluator, its body is also given
    as a Python expression with an evaluator over the world state: an
    expression may call the hosted chat model, and what it returns may
    then depend on the state of the world at the call. *)
Module Py.

Inductive value : Type :=
  | VStr (s : str)
  | VInt (z : Z)
  | VBool (b : bool)
  | VDict (d : gmap string str).

(** What an expression can raise: an exception of the notebook's
    functions, a [TypeError], or a [NameError].  [NotModelled] marks the
    operations on which this fragment says nothing: [int] of a string,
    and the formatting of a value that is not a string. *)
Inductive error : Type :=
  | Raised (e : exn)
  | TypeError
  | NameError (x : string)
  | NotModelled.

Inductive expr : Type :=
  | Name (x : string)
  | StrLit (s : str)
  | IntLit (z : Z)
  | Subscript (e : expr) (key : string)
  | Len (e : expr)
  | Mul (e1 e2 : expr)
  | Lt (e1 e2 : expr)
  | Eq (e1 e2 : expr)
  | IntOf (e : expr)
  | Join (e1 e2 : expr)
  | Invoke (cfg : ChatOpenAI) (system user : expr).

(** A [bool] is an [int] in Python. *)
Definition as_int (v : value) : option Z :=
  match v with
  | VInt z => Some z
  | VBool b => Some (Z.b2z b)
  | VStr _ | VDict _ => None
  end.

Definition subscript (v : value) (key : string) : error + value :=
  match v with
  | VDict d =>
      match d !! key with
      | Some s => inr (VStr s)
      | None => inl (Raised (KeyError key))
      end
  | VStr _ | VInt _ | VBool _ => inl TypeError
  end.

Definition py_len (v : value) : error + value :=
  match v with
  | VStr s => inr (VInt (len s))
  | VDict d => inr (VInt (Z.of_nat (size d)))
  | VInt _ | VBool _ => inl TypeError
  end.

(** [s * n]: [n] copies of [s], none when [n] is not positive. *)
Definition repeat_str (s : str) (n : Z) : str :=
  mjoin (replicate (Z.to_nat n) s).

Definition mul (v1 v2 : value) : error + value :=
  match as_int v1, as_int v2 with
  | Some z1, Some z2 => inr (VInt (z1 * z2))
  | _, _ =>
      match v1, as_int v2, as_int v1, v2 with
      | VStr s, Some n, _, _ => inr (VStr (repeat_str s n))
      | _, _, Some n, VStr s => inr (VStr (repeat_str s n))
      | _, _, _, _ => inl TypeError
      end
  end.

(** Strings compare by code points, lexicographically. *)
Fixpoint str_lt (s t : str) : bool :=
  match s, t with
  | _, [] => false
  | [], _ :: _ => true
  | c :: s', d :: t' => (c <? d)%N || ((c =? d)%N && str_lt s' t')
  end.

Definition lt (v1 v2 : value) : error + value :=
  match as_int v1, as_int v2 with
  | Some z1, Some z2 => inr (VBool (z1 <? z2))
  | _, _ =>
      match v1, v2 with
      | VStr s, VStr t => inr (VBool (str_lt s t))
      | _, _ => inl TypeError
      end
  end.

Definition eq (v1 v2 : value) : value :=
  match as_int v1, as_int v2 with
  | Some z1, Some z2 => VBool (z1 =? z2)
  | _, _ =>
      match v1, v2 with
      | VStr s, VStr t => VBool (bool_decide (s = t))
      | VDict d1, VDict d2 => VBool (bool_decide (d1 = d2))
      | _, _ => VBool false
      end
  end.

Definition int_of (v : value) : error + value :=
  match v with
  | VInt z => inr (VInt z)
  | VBool b => inr (VInt (Z.b2z b))
  | VStr _ => inl NotModelled
  | VDict _ => inl TypeError
  end.

(** Two adjacent parts of an f-string whose fields are strings. *)
Definition join (v1 v2 : value) : error + value :=
  match v1, v2 with
  | VStr s, VStr t => inr (VStr (s ++ t))
  | _, _ => inl NotModelled
  end.

Section Eval.
Context {World : Type} `{!Chat World}.

(** [llm.invoke([system message, user message]).content]. *)
Definition invoke_content (cfg : ChatOpenAI) (v1 v2 : value) (w : World)
    : (error + value) * World :=
  match v1, v2 with
  | VStr system, VStr user =>
      match invoke cfg [ {| role := "system"; content := system |};
                         {| role := "user"; content := user |} ] w with
      | (inl e, w') => (inl (Raised e), w')
      | (inr reply, w') => (inr (VStr reply), w')
      end
  | _, _ => (inl NotModelled, w)
  end.

(** Operands are evaluated left to right; the first exception ends the
    evaluation. *)
Fixpoint eval (e : expr) (env : gmap string value) (w : World)
    : (error + value) * World :=
  let unary (f : value → error + value) (e1 : expr) :=
    match eval e1 env w with
    | (inl err, w1) => (inl err, w1)
    | (inr v1, w1) => (f v1, w1)
    end in
  let binary (f : value → value → World → (error + value) * World)
      (e1 e2 : expr) :=
    match eval e1 env w with
    | (inl err, w1) => (inl err, w1)
    | (inr v1, w1) =>
        match eval e2 env w1 with
        | (inl err, w2) => (inl err, w2)
        | (inr v2, w2) => f v1 v2 w2
        end
    end in
  match e with
  | Name x =>
      match env !! x with
      | Some v => (inr v, w)
      | None => (inl (NameError x), w)
      end
  | StrLit s => (inr (VStr s), w)
  | IntLit z => (inr (VInt z), w)
  | Subscript e1 key => unary (λ v, subscript v key) e1
  | Len e1 => unary py_len e1
  | IntOf e1 => unary int_of e1
  | Mul e1 e2 => binary (λ v1 v2 w', (mul v1 v2, w')) e1 e2
  | Lt e1 e2 => binary (λ v1 v2 w', (lt v1 v2, w')) e1 e2
  | Eq e1 e2 => binary (λ v1 v2 w', (inr (eq v1 v2), w')) e1 e2
  | Join e1 e2 => binary (λ v1 v2 w', (join v1 v2, w')) e1 e2
  | Invoke cfg e1 e2 => binary (invoke_content cfg) e1 e2
  end.

End Eval.

(** An expression that makes no call to the hosted model. *)
Fixpoint pure (e : expr) : bool :=
  match e with
  | Name _ | StrLit _ | IntLit _ => true
  | Subscript e1 _ | Len e1 | IntOf e1 => pure e1
  | Mul e1 e2 | Lt e1 e2 | Eq e1 e2 | Join e1 e2 => pure e1 && pure e2
  | Invoke _ _ _ => false
  end.

(** The body of [conciseness]:
    [int(len(outputs["response"]) < 2 * len(reference_outputs["answer"]))]. *)
Definition conciseness_body : expr :=
  IntOf (Lt (Len (Subscript (Name "outputs") "response"))
            (Mul (IntLit 2)
                 (Len (Subscript (Name "reference_outputs") "answer")))).

(** The parameters of [conciseness], bound to the two mappings. *)
Definition conciseness_env (outputs reference_outputs : gmap string str)
    : gmap string value :=
  {[ "outputs" := VDict outputs;
     "reference_outputs" := VDict reference_outputs ]}.

(** The body of [correctness], with the f-string and the judge's call in
    place of the two local variables. *)
Definition correctness_body : expr :=
  Eq (Invoke {| model := "gpt-4.1-2025-04-14"; temperature := 0 |}
        (StrLit
           (py (unlines
             [ "";
               "You are an expert data labeler evaluating model outputs for correctness. Your task is to grade the response as CORRECT or INCORRECT based on the following rubric:";
               "";
               "<Rubric>";
               "A correct answer:";
               "- Provides accurate and complete information";
               "- Contains no factual errors";
               "- Addresses all parts of the question";
               "- Is logically consistent";
               "- Uses precise and accurate terminology";
               "</Rubric>" ])))
        (Join (StrLit (py ("You are grading the following question:"
                           +:+ nl +:+ "    ")))
        (Join (Subscript (Name "inputs") "question")
        (Join (StrLit (py (nl +:+ "    Here is the real answer:"
                           +:+ nl +:+ "    ")))
        (Join (Subscript (Name "reference_outputs") "answer")
        (Join (StrLit (py (nl
                           +:+ "    You are grading the following predicted answer:"
                           +:+ nl +:+ "    ")))
        (Join (Subscript (Name "outputs") "response")
              (StrLit (py (nl +:+ "    Respond with CORRECT or INCORRECT:"
                           +:+ nl +:+ "    Grade:" +:+ nl +:+ "    "))))))))))
     (StrLit (py "CORRECT")).

Definition correctness_env (inputs outputs reference_outputs : gmap string str)
    : gmap string value :=
  {[ "inputs" := VDict inputs;
     "outputs" := VDict outputs;
     "reference_outputs" := VDict reference_outputs ]}.

(** The results of the notebook's functions as results of expressions. *)
Definition returned_int (r : exn + Z) : error + value :=
  match r with
  | inl e => inl (Raised e)
  | inr z => inr (VInt z)
  end.

Definition returned_bool (r : exn + bool) : error + value :=
  match r with
  | inl e => inl (Raised e)
  | inr b => inr (VBool b)
  end.

End Py.

(** ** The dataset *)

(** One entry of [client.create_examples(examples=[...])]. *)
Record ExampleDict : Type :=
  { inputs : gmap string str; outputs : gmap string str }.

Definition qa (question answer : string) : ExampleDict :=
  {| inputs := {[ "question" := py question ]};
     outputs := {[ "answer" := py answer ]} |}.

Definition examples : list ExampleDict :=
  [ qa "What is NVIDIA's primary revenue driver?"
       "Primarily data center chips and AI accelerators";
    qa "What market does AMD compete in?"
       "CPUs, GPUs, and data center processors";
    qa "Who leads the AI chip market?"
       "NVIDIA dominates with over 80% market share";
    qa "What is AMD's main competitive advantage?"
       "Cost-effective alternatives to Intel and NVIDIA";
    qa "Does NVIDIA or AMD have higher gross margins?"
       "NVIDIA typically maintains higher gross margins" ].


(** ** The evaluation harness and the example store

    The notebook hands the dataset, the target and the evaluators to
    [client.create_examples] and [client.evaluate], whose code the
    repository does not contain.  The store and the runner below follow
    the specification; where it is at odds with itself, the runner
    follows the invariant of its data model (see [run_example]). *)
Module Harness.

Inductive ErrorKind : Type :=
  | DuplicateIdError
  | TargetInvocationError
  | EvaluatorInvocationError
  | SchemaError.

Record Failure : Type := { kind : ErrorKind; message : str }.

Inductive ScoreValue : Type :=
  | BoolValue (b : bool)
  | NumValue (z : Z).

Record Verdict : Type := { value : ScoreValue; rationale : option str }.

Section Runner.
Context {Id World : Type} `{!EqDecision Id}.

(** Modelled from the spec: the Example of the data model, which the
    notebook only passes to the hosted service as dictionaries. *)
Record Example : Type :=
  { id : Id;
    input : gmap string str;
    expected_output : option (gmap string str) }.

(** Modelled from the spec: the Observation of the data model; a
    failed target invocation is recorded as a Failure Observation. *)
Inductive Observation : Type :=
  | Observed (example_id : Id) (output : gmap string str)
  | FailedObservation (example_id : Id) (failure : Failure).

(** Modelled from the spec: the Score of the data model; a failed
    evaluator invocation is recorded as a Failure Score. *)
Inductive Score : Type :=
  | Scored (example_id : Id) (evaluator_name : string) (v : Verdict)
  | FailedScore (example_id : Id) (evaluator_name : string)
      (failure : Failure).

(** Modelled from the spec: an invocation of a caller-supplied function
    (target or evaluator), which reads and advances the world and either
    fails with an error kind and message or returns. *)
Definition Call (A : Type) : Type := World → (Failure + A) * World.

(** Modelled from the spec: the target function, from an example's input
    mapping to an output mapping. *)
Definition Target : Type := gmap string str → Call (gmap string str).

(** Modelled from the spec: a registered evaluator, called on the input,
    the observed output and the optional expected output. *)
Record Evaluator : Type :=
  { name : string;
    evaluate :
      gmap string str → gmap string str → option (gmap string str)
      → Call Verdict }.

(** Modelled from the spec: one element of the RunResult's sequence, an
    Example with its Observation and its Scores. *)
Record Entry : Type :=
  { example : Example; observation : Observation; scores : list Score }.

(** Modelled from the spec: the RunResult, the entries in example order
    with the run label and the timestamp. *)
Record RunResult : Type :=
  { entries : list Entry; run_label : str; timestamp : Z }.

(** Modelled from the spec: what is recorded for an evaluator
    invocation, a Score or, when the invocation failed, a Failure Score
    with the error kind and message. *)
Definition score_of (e : Example) (ev : Evaluator) (r : Failure + Verdict)
    : Score :=
  match r with
  | inr v => Scored (id e) (name ev) v
  | inl f => FailedScore (id e) (name ev) f
  end.

(** Modelled from the spec: what is recorded for a target invocation, an
    Observation or, when the invocation failed, a Failure Observation
    with the error kind and message. *)
Definition observation_of (e : Example) (r : Failure + gmap string str)
    : Observation :=
  match r with
  | inr out => Observed (id e) out
  | inl f => FailedObservation (id e) f
  end.

(** Modelled from the spec: the output the evaluators are handed.  A
    failed target invocation has produced no field, and the evaluators
    are handed the empty mapping. *)
Definition output_of (r : Failure + gmap string str) : gmap string str :=
  match r with
  | inr out => out
  | inl _ => ∅
  end.

(** Modelled from the spec: step 2 of the runner contract, which is
    not in the repository.  Every registered evaluator is invoked in
    order; a failure becomes a Failure Score and the next evaluator
    still runs. *)
Fixpoint run_evaluators (evaluators : list Evaluator) (e : Example)
    (output : gmap string str) (w : World) : list Score * World :=
  match evaluators with
  | [] => ([], w)
  | ev :: rest =>
      let '(r, w1) := evaluate ev (input e) output (expected_output e) w in
      let '(ss, w2) := run_evaluators rest e output w1 in
      (score_of e ev r :: ss, w2)
  end.

(** Modelled from the spec: the processing of one example, which is not
    in the repository.  The specification is at odds with itself on a
    failed target: step 1 of the runner contract has the evaluators
    skipped, while the invariant of the data model and the first
    testable property give every example one Score per registered
    evaluator, a failure being recorded in place of a missing entry.
    The invariant is followed here, as [client.evaluate] does for the
    notebook: the failed target is recorded as a Failure Observation and
    every evaluator is still invoked for that example. *)
Definition run_example (target : Target) (evaluators : list Evaluator)
    (e : Example) (w : World) : Entry * World :=
  let '(r, w1) := target (input e) w in
  let '(ss, w2) := run_evaluators evaluators e (output_of r) w1 in
  ({| example := e; observation := observation_of e r; scores := ss |}, w2).

(** Modelled from the spec: the traversal of the runner contract,
    which is not in the repository.  Examples are processed one after
    the other in the order of the store's sequence. *)
Fixpoint run_examples (target : Target) (evaluators : list Evaluator)
    (es : list Example) (w : World) : list Entry * World :=
  match es with
  | [] => ([], w)
  | e :: rest =>
      let '(entry, w1) := run_example target evaluators e w in
      let '(more, w2) := run_examples target evaluators rest w1 in
      (entry :: more, w2)
  end.

(** Modelled from the spec: [run(examples, target, evaluators,
    run_label)], which is not in the repository.  The timestamp is
    read from the clock when the run starts. *)
Definition run (clock : World → Z) (examples : list Example)
    (target : Target) (evaluators : list Evaluator) (label : str)
    (w : World) : RunResult * World :=
  let '(es, w') := run_examples target evaluators examples w in
  ({| entries := es; run_label := label; timestamp := clock w |}, w').

Definition is_failed (o : Observation) : bool :=
  match o with
  | Observed _ _ => false
  | FailedObservation _ _ => true
  end.

Definition observation_id (o : Observation) : Id :=
  match o with
  | Observed i _ => i
  | FailedObservation i _ => i
  end.

Definition score_id (s : Score) : Id :=
  match s with
  | Scored i _ _ => i
  | FailedScore i _ _ => i
  end.

Definition score_evaluator (s : Score) : string :=
  match s with
  | Scored _ n _ => n
  | FailedScore _ n _ => n
  end.

(** The Observations and the Scores of a run, over all its entries. *)
Definition observations (r : RunResult) : list Observation :=
  observation <$> entries r.

Definition all_scores (r : RunResult) : list Score :=
  concat (scores <$> entries r).

(** The shape of one entry of a run: the observation carries the
    example's id, and there is one score per registered evaluator, in
    registration order, each carrying the example's id. *)
Definition entry_ok (V : list Evaluator) (en : Entry) : Prop :=
  observation_id (observation en) = id (example en)
  ∧ score_evaluator <$> scores en = name <$> V
  ∧ Forall (λ s, score_id s = id (example en)) (scores en).

(** A Failure Score, as opposed to a Score with a value. *)
Definition is_failed_score (s : Score) : bool :=
  match s with
  | Scored _ _ _ => false
  | FailedScore _ _ _ => true
  end.

(** ** The example store *)

Definition Store : Type := list Example.

(** Modelled from the spec: [add(example)] of the example store,
    which is not in the repository.  The example is appended when its
    id is new; otherwise the call fails with [DuplicateIdError]. *)
Definition add (e : Example) (s : Store) : (ErrorKind + unit) * Store :=
  if decide (id e ∈ id <$> s)
  then (inl DuplicateIdError, s)
  else (inr tt, s ++ [e]).

(** Modelled from the spec: [all()] of the example store, which is
    not in the repository.  The examples in insertion order. *)
Definition all (s : Store) : list Example := s.

End Runner.

Arguments Example : clear implicits.
Arguments Observation : clear implicits.
Arguments Score : clear implicits.
Arguments Call : clear implicits.
Arguments Target : clear implicits.
Arguments Evaluator : clear implicits.
Arguments Entry : clear implicits.
Arguments RunResult : clear implicits.
Arguments Store : clear implicits.

End Harness.

(** ** A scripted chat model

    A stand-in for the hosted service, for running the notebook's
    functions on concrete inputs: the world is the list of replies still
    to be given, and each call consumes one. *)
Definition Script : Type := list (exn + str).

#[global] Instance scripted_chat : Chat Script :=
  λ _ _ w,
    match w with
    | [] => (inl (ExternalError []), [])
    | reply :: w' => (reply, w')
    end.

(** ** A small harness set-up

    Callables and examples for running the harness on concrete inputs.
    The world counts the invocations made so far. *)
Module Demo.
Import Harness.

(** A target that answers with the question itself and fails on an
    input without a question. *)
Definition echo_target : Target nat :=
  λ i w,
    match i !! "question" with
    | Some q => (inr {[ "response" := q ]}, S w)
    | None =>
        (inl {| kind := SchemaError; message := py "question" |}, S w)
    end.

(** The conciseness check as a registered evaluator. *)
Definition concise : Evaluator nat :=
  {| name := "conciseness";
     evaluate := λ _ o r w,
       match conciseness o (default ∅ r) with
       | inr z => (inr {| value := NumValue z; rationale := None |}, S w)
       | inl _ =>
           (inl {| kind := EvaluatorInvocationError; message := [] |}, S w)
       end |}.

Definition with_question : Example nat :=
  {| id := 1%nat;
     input := {[ "question" := py "Who leads the AI chip market?" ]};
     expected_output :=
       Some {[ "answer" := py "NVIDIA dominates with over 80% market share" ]} |}.

Definition without_question : Example nat :=
  {| id := 2%nat;
     input := {[ "prompt" := py "Who leads the AI chip market?" ]};
     expected_output := Some {[ "answer" := py "NVIDIA" ]} |}.

Definition clock (w : nat) : Z := Z.of_nat w.

End Demo.

(** ** The environment set-up cell

    The first code cell of the notebook prints a banner, asks whether to
    enable tracing, and asks for each API key that the process
    environment does not hold yet.  The console is explicit state: the
    environment, the replies the user will type at the successive
    prompts, and the record of what the cell has passed to [print],
    [input] and [getpass.getpass] so far (what the library may add of
    its own, such as the warning of [getpass] when there is no terminal,
    is not part of that record). *)
Module Setup.

(** [str.isspace] on one character: the code points CPython treats as
    whitespace. *)
Definition isspace (c : N) : bool :=
  (((9 <=? c) && (c <=? 13)) || ((28 <=? c) && (c <=? 32))
   || (c =? 133) || (c =? 160) || (c =? 5760)
   || ((8192 <=? c) && (c <=? 8202))
   || (c =? 8232) || (c =? 8233) || (c =? 8239) || (c =? 8287)
   || (c =? 12288))%N.

Fixpoint lstrip (s : str) : str :=
  match s with
  | [] => []
  | c :: s' => if isspace c then lstrip s' else s
  end.

Definition rstrip (s : str) : str := reverse (lstrip (reverse s)).

(** [s.strip()]: whitespace removed at both ends. *)
Definition strip (s : str) : str := rstrip (lstrip s).

(** [x or y] on strings: the empty string is the only falsy one. *)
Definition str_or (x y : str) : str :=
  match x with
  | [] => y
  | _ :: _ => x
  end.

(** [not v] for the result of [os.getenv]: [None] and the empty string
    are falsy. *)
Definition unset (v : option str) : bool :=
  match v with
  | None => true
  | Some [] => true
  | Some (_ :: _) => false
  end.

(** What the cell asks to be shown: the text of a [print], the prompt
    of an [input], or the prompt of a [getpass.getpass]. *)
Inductive event : Type :=
  | Printed (text : str)
  | Prompted (prompt : str)
  | PromptedSecret (prompt : str).

Record console : Type :=
  Console { environ : gmap string str; replies : list str; screen : list event }.

(** [input] and [getpass] raise [EOFError] when there is nothing left to
    read; storing a value the platform cannot encode raises
    [ValueError]. *)
Inductive error : Type :=
  | EOFError
  | ValueError.

Definition Cell (A : Type) : Type := console → (error + A) * console.

#[global] Instance Cell_ret : MRet Cell := λ A a c, (inr a, c).
#[global] Instance Cell_bind : MBind Cell :=
  λ A B f m c,
    match m c with
    | (inl e, c') => (inl e, c')
    | (inr a, c') => f a c'
    end.

Definition show (ev : event) (c : console) : console :=
  Console (environ c) (replies c) (screen c ++ [ev]).

Definition print (text : str) : Cell unit := λ c, (inr tt, show (Printed text) c).

(** Both [input] and [getpass.getpass] show their prompt and read the
    user's next reply. *)
Definition read (ev : event) : Cell str :=
  λ c,
    match replies c with
    | [] => (inl EOFError, show ev c)
    | r :: rest => (inr r, Console (environ c) rest (screen c ++ [ev]))
    end.

Definition input (prompt : str) : Cell str := read (Prompted prompt).

Definition getpass (prompt : str) : Cell str := read (PromptedSecret prompt).

Definition getenv (key : string) : Cell (option str) :=
  λ c, (inr (environ c !! key), c).

(** The check mark of the cell's messages, U+2713. *)
Definition check_mark : str := [10003%N].

Section Cell.
(** Whether the platform can store a value in the process environment
    (a value with a NUL character, for one, cannot be). *)
Variable storable : str → bool.

(** [os.environ[key] = value]. *)
Definition setenv (key : string) (value : str) : Cell unit :=
  λ c,
    if storable value
    then (inr tt, Console (<[key := value]> (environ c)) (replies c) (screen c))
    else (inl ValueError, c).

(** [input(...).strip() or "true"]. *)
Definition tracing_choice (reply : str) : str := str_or (strip reply) (py "true").

(** One of the two [if not os.getenv(key): ... else: ...] blocks. *)
Definition ensure_key (key : string) (prompt already_set : str) : Cell unit :=
  current ← getenv key;
  if unset current
  then secret ← getpass prompt; setenv key secret
  else print already_set.

(** The cell, statement by statement. *)
Definition setup : Cell unit :=
  _ ← print (py "Please enter your API keys to get started:");
  _ ← print (mjoin (replicate 50 (py "=")));
  reply ← input (py "Enable LangSmith tracing? (true/false) [default: true]: ");
  _ ← setenv "LANGSMITH_TRACING" (tracing_choice reply);
  _ ← ensure_key "LANGSMITH_API_KEY" (py "Enter your LangSmith API key: ")
        (check_mark ++ py " LangSmith API key already set");
  _ ← ensure_key "OPENAI_API_KEY" (py "Enter your OpenAI API key: ")
        (check_mark ++ py " OpenAI API key already set");
  _ ← print (py nl ++ check_mark ++ py " Environment setup complete!");
  print (py "You can now proceed with the rest of the notebook.").

End Cell.

(** Every text the cell has for [print], [input] and [getpass]. *)
Definition messages : list event :=
  [ Printed (py "Please enter your API keys to get started:");
    Printed (mjoin (replicate 50 (py "=")));
    Prompted (py "Enable LangSmith tracing? (true/false) [default: true]: ");
    PromptedSecret (py "Enter your LangSmith API key: ");
    Printed (check_mark ++ py " LangSmith API key already set");
    PromptedSecret (py "Enter your OpenAI API key: ");
    Printed (check_mark ++ py " OpenAI API key already set");
    Printed (py nl ++ check_mark ++ py " Environment setup complete!");
    Printed (py "You can now proceed with the rest of the notebook.") ].

(** How a later console state relates to an earlier one while the cell
    runs: only the three variables of the cell change, an API key that
    was set and non-empty keeps its value, no variable is removed, the
    screen grows by the cell's own messages, and replies are consumed
    from the front. *)
Definition evolves (c c' : console) : Prop :=
  (∀ k, k ∉ ["LANGSMITH_TRACING"; "LANGSMITH_API_KEY"; "OPENAI_API_KEY"] →
        environ c' !! k = environ c !! k)
  ∧ (∀ k v, k ∈ ["LANGSMITH_API_KEY"; "OPENAI_API_KEY"] →
            environ c !! k = Some v → v ≠ [] → environ c' !! k = Some v)
  ∧ (∀ k, is_Some (environ c !! k) → is_Some (environ c' !! k))
  ∧ (∃ shown, screen c' = screen c ++ shown ∧ Forall (.∈ messages) shown)
  ∧ (∃ used, replies c = used ++ replies c').

(** A platform check for running the cell on concrete inputs: a value
    with a NUL character is refused. *)
Definition no_nul (v : str) : bool := forallb (λ c, negb (c =? 0)%N) v.

End Setup.

(** * Properties *)

(** ** Conciseness *)

Section ConcisenessFacts.
Implicit Types (outputs reference_outputs : gmap string str) (r a : str).

Lemma getitem_Some (d : gmap string str) k v :
  d !! k = Some v → getitem d k = inr v.
Proof. unfold getitem. by intros ->. Qed.

Lemma getitem_None (d : gmap string str) k :
  d !! k = None → getitem d k = inl (KeyError k).
Proof. unfold getitem. by intros ->. Qed.

(** With both fields present the evaluator returns the comparison. *)
Lemma conciseness_present outputs reference_outputs r a :
  outputs !! "response" = Some r →
  reference_outputs !! "answer" = Some a →
  conciseness outputs reference_outputs = inr (Z.b2z (len r <? 2 * len a)).
Proof.
  intros Hr Ha. unfold conciseness.
  rewrite (getitem_Some _ _ _ Hr). cbn.
  by rewrite (getitem_Some _ _ _ Ha).
Qed.

(** The response field is looked up first. *)
Lemma conciseness_no_response outputs reference_outputs :
  outputs !! "response" = None →
  conciseness outputs reference_outputs = inl (KeyError "response").
Proof. intros Hr. unfold conciseness. by rewrite (getitem_None _ _ Hr). Qed.

Lemma conciseness_no_answer outputs reference_outputs r :
  outputs !! "response" = Some r →
  reference_outputs !! "answer" = None →
  conciseness outputs reference_outputs = inl (KeyError "answer").
Proof.
  intros Hr Ha. unfold conciseness.
  rewrite (getitem_Some _ _ _ Hr). cbn.
  by rewrite (getitem_None _ _ Ha).
Qed.

(** The evaluator only ever returns the integers 0 and 1. *)
Lemma conciseness_range outputs reference_outputs score :
  conciseness outputs reference_outputs = inr score → score = 0 ∨ score = 1.
Proof.
  destruct (outputs !! "response") as [r|] eqn:Hr.
  - destruct (reference_outputs !! "answer") as [a|] eqn:Ha.
    + rewrite (conciseness_present _ _ _ _ Hr Ha). intros [= <-].
      destruct (len r <? 2 * len a); auto.
    + by rewrite (conciseness_no_answer _ _ _ Hr Ha).
  - by rewrite (conciseness_no_response _ _ Hr).
Qed.

Lemma len_nonneg r : 0 ≤ len r.
Proof. unfold len. lia. Qed.

Lemma len_nil : len [] = 0.
Proof. reflexivity. Qed.

End ConcisenessFacts.

(** C1: the conciseness score is the integer 1 (true) exactly when the
    character length of [outputs["response"]] is strictly less than 2
    times the character length of [reference_outputs["answer"]], and 0
    (false) otherwise; at exactly twice the reference length the score is
    false, and one character below it the score is true. *)
Theorem conciseness_threshold (outputs reference_outputs : gmap string str)
    (r a : str) :
  outputs !! "response" = Some r →
  reference_outputs !! "answer" = Some a →
  ∃ score,
    conciseness outputs reference_outputs = inr score
    ∧ (score = 1 ↔ len r < 2 * len a)
    ∧ (score = 0 ↔ ¬ len r < 2 * len a)
    ∧ (truthy score = true ↔ len r < 2 * len a)
    ∧ (len r = 2 * len a → score = 0)
    ∧ (len r = 2 * len a - 1 → score = 1).
Proof.
  intros Hr Ha. eexists. split; [by apply conciseness_present|].
  destruct (Z.ltb_spec (len r) (2 * len a)) as [Hlt|Hge]; cbn;
    repeat split; intros; try done; lia.
Qed.

Lemma conciseness_threshold_witness :
  ∃ score,
    conciseness {[ "response" := py "abcd" ]} {[ "answer" := py "ab" ]}
      = inr score
    ∧ (score = 1 ↔ len (py "abcd") < 2 * len (py "ab"))
    ∧ (score = 0 ↔ ¬ len (py "abcd") < 2 * len (py "ab"))
    ∧ (truthy score = true ↔ len (py "abcd") < 2 * len (py "ab"))
    ∧ (len (py "abcd") = 2 * len (py "ab") → score = 0)
    ∧ (len (py "abcd") = 2 * len (py "ab") - 1 → score = 1).
Proof.
  apply (conciseness_threshold
           {[ "response" := py "abcd" ]} {[ "answer" := py "ab" ]}
           (py "abcd") (py "ab")); reflexivity.
Defined.

(** The two sides of the boundary, evaluated. *)
Example conciseness_at_twice :
  conciseness {[ "response" := py "abcd" ]} {[ "answer" := py "ab" ]} = inr 0.
Proof. reflexivity. Qed.

Example conciseness_just_under_twice :
  conciseness {[ "response" := py "abc" ]} {[ "answer" := py "ab" ]} = inr 1.
Proof. reflexivity. Qed.

(** C4: against each of the five reference answers of the dataset, the
    fixed response ["N/A"] of length 3 passes the conciseness check,
    because 3 is below twice the length of every one of them. *)
Theorem conciseness_fixed_response_passes :
  length examples = 5%nat
  ∧ len (py "N/A") = 3
  ∧ Forall (λ e, ∃ a,
              outputs e !! "answer" = Some a
              ∧ 3 < 2 * len a
              ∧ conciseness {[ "response" := py "N/A" ]} (outputs e) = inr 1)
           examples.
Proof.
  split; [reflexivity|]. split; [reflexivity|].
  repeat (apply Forall_cons; split;
          [eexists; split; [reflexivity|]; split; [reflexivity|reflexivity]|]).
  apply Forall_nil. done.
Qed.

(** The lengths of the five reference answers. *)
Example reference_answer_lengths :
  (λ e, len <$> outputs e !! "answer") <$> examples
  = [Some 47; Some 38; Some 43; Some 47; Some 47].
Proof. reflexivity. Qed.

Section BodyFacts.
Import Py.

(** An expression that makes no call to the hosted model evaluates to
    the same result in any world, of any hosted service, and leaves the
    world as it found it. *)
Lemma pure_eval {W1 W2 : Type} `{!Chat W1} `{!Chat W2} (e : expr)
    (env : gmap string value) (w1 : W1) (w2 : W2) :
  pure e = true →
  (eval e env w1).1 = (eval e env w2).1 ∧ (eval e env w1).2 = w1.
Proof.
  revert w1 w2.
  induction e as [x|s|z|e1 IH1 key|e1 IH1|e1 IH1 e2 IH2|e1 IH1 e2 IH2
                 |e1 IH1 e2 IH2|e1 IH1|e1 IH1 e2 IH2|cfg e1 IH1 e2 IH2];
    intros w1 w2 Hpure; cbn [pure] in Hpure; cbn [eval];
    try (apply andb_prop in Hpure as [Hp1 Hp2]);
    try done.
  1: { by destruct (env !! x). }
  all: try (destruct (IH1 w1 w2 Hpure) as [Hres Hw];
            destruct (eval e1 env w1) as [[err1|v1] w1'];
            destruct (eval e1 env w2) as [[err2|v2] w2'];
            cbn in Hres, Hw |- *; by simplify_eq).
  all: destruct (IH1 w1 w2 Hp1) as [Hres1 Hw1];
    destruct (eval e1 env w1) as [[err1|v1] w1'];
    destruct (eval e1 env w2) as [[err2|v2] w2'];
    cbn in Hres1, Hw1 |- *; simplify_eq; try done;
    destruct (IH2 w1 w2' Hp2) as [Hres2 Hw2];
    destruct (eval e2 env w1) as [[err3|v3] w1''];
    destruct (eval e2 env w2') as [[err4|v4] w2''];
    cbn in Hres2, Hw2 |- *; by simplify_eq.
Qed.

(** The expression evaluates as the function [conciseness] computes. *)
Lemma conciseness_body_eval {World : Type} `{!Chat World}
    (outputs reference_outputs : gmap string str) (w : World) :
  eval conciseness_body (conciseness_env outputs reference_outputs) w
  = (returned_int (conciseness outputs reference_outputs), w).
Proof.
  unfold conciseness_body, conciseness_env, conciseness, getitem.
  cbn [eval]. rewrite lookup_insert_eq. cbn [subscript].
  destruct (outputs !! "response") as [r|]; [|done]. cbn.
  rewrite lookup_insert_ne, lookup_singleton_eq by done. cbn.
  by destruct (reference_outputs !! "answer") as [a|].
Qed.

(** The expression evaluates as the function [correctness] computes. *)
Lemma correctness_body_eval {World : Type} `{!Chat World}
    (inputs outputs reference_outputs : gmap string str) (w : World) :
  eval correctness_body (correctness_env inputs outputs reference_outputs) w
  = (returned_bool (correctness inputs outputs reference_outputs w).1,
     (correctness inputs outputs reference_outputs w).2).
Proof.
  unfold correctness_body, correctness_env, correctness, getitem, lift,
    mbind, M_bind, mret, M_ret.
  cbn [eval]. rewrite lookup_insert_eq. cbn [subscript join].
  destruct (inputs !! "question") as [q|]; [|done]. cbn [join].
  rewrite !lookup_insert_ne, lookup_singleton_eq by done. cbn [subscript].
  destruct (reference_outputs !! "answer") as [a|]; [|done]. cbn [join].
  rewrite lookup_insert_eq. cbn [subscript].
  destruct (outputs !! "response") as [p|]; [|done].
  cbn [join invoke_content].
  change (invoke _ _ w) with (invoke llm (judge_messages q a p) w).
  by destruct (invoke llm (judge_messages q a p) w) as [[e|reply] w'].
Qed.

End BodyFacts.

(** C5: the conciseness evaluator is deterministic: its body makes no
    call to the outside, so two invocations on the same pair of
    mappings, in whatever states of whatever hosted services, return the
    same result, which is the one [conciseness] computes, and leave the
    world as it was. *)
Theorem conciseness_deterministic {W1 W2 : Type} `{!Chat W1} `{!Chat W2}
    (outputs reference_outputs : gmap string str) (w1 : W1) (w2 : W2) :
  (Py.eval Py.conciseness_body
     (Py.conciseness_env outputs reference_outputs) w1).1
  = (Py.eval Py.conciseness_body
       (Py.conciseness_env outputs reference_outputs) w2).1
  ∧ (Py.eval Py.conciseness_body
       (Py.conciseness_env outputs reference_outputs) w1).2 = w1
  ∧ (Py.eval Py.conciseness_body
       (Py.conciseness_env outputs reference_outputs) w1).1
    = Py.returned_int (conciseness outputs reference_outputs).
Proof.
  destruct (pure_eval Py.conciseness_body
              (Py.conciseness_env outputs reference_outputs) w1 w2 eq_refl)
    as [Hsame Hworld].
  split; [done|]. split; [done|]. by rewrite conciseness_body_eval.
Qed.

(** The judge, by contrast, is asked anew at every invocation: the body
    of [correctness] on one and the same example returns [True] in one
    world and [False] in another. *)
Example correctness_body_depends_on_world :
  (Py.eval Py.correctness_body
     (Py.correctness_env {[ "question" := py "Who?" ]}
        {[ "response" := py "AMD" ]} {[ "answer" := py "AMD" ]})
     ([inr (py "CORRECT")] : Script)).1 = inr (Py.VBool true)
  ∧ (Py.eval Py.correctness_body
       (Py.correctness_env {[ "question" := py "Who?" ]}
          {[ "response" := py "AMD" ]} {[ "answer" := py "AMD" ]})
       ([inr (py "INCORRECT")] : Script)).1 = inr (Py.VBool false).
Proof. split; vm_compute; reflexivity. Qed.

(** C9: the conciseness result depends only on the character lengths of
    the response and of the reference answer: responses of equal length
    against answers of equal length get equal results, whatever else the
    two mappings hold; and the evaluator, which is not handed the
    example's inputs, gives the same result for any inputs. *)
Theorem conciseness_length_only {World : Type} `{!Chat World}
    (o1 o2 r1 r2 : gmap string str) (p1 p2 a1 a2 : str) :
  o1 !! "response" = Some p1 →
  o2 !! "response" = Some p2 →
  r1 !! "answer" = Some a1 →
  r2 !! "answer" = Some a2 →
  len p1 = len p2 →
  len a1 = len a2 →
  conciseness o1 r1 = conciseness o2 r2
  ∧ ∀ (i1 i2 : gmap string str) (w : World),
      conciseness_evaluator i1 o1 r1 w = conciseness_evaluator i2 o2 r2 w.
Proof.
  intros Hp1 Hp2 Ha1 Ha2 Hp Ha.
  assert (conciseness o1 r1 = conciseness o2 r2) as Heq.
  { rewrite (conciseness_present _ _ _ _ Hp1 Ha1).
    rewrite (conciseness_present _ _ _ _ Hp2 Ha2).
    by rewrite Hp, Ha. }
  split; [done|]. intros i1 i2 w.
  unfold conciseness_evaluator. by rewrite Heq.
Qed.

Lemma conciseness_length_only_witness :
  conciseness {[ "response" := py "N/A" ]} {[ "answer" := py "CPUs" ]}
  = conciseness (<[ "note" := py "x" ]> {[ "response" := py "yes" ]})
      {[ "answer" := py "GPUs" ]}
  ∧ ∀ (i1 i2 : gmap string str) (w : Script),
      conciseness_evaluator i1 {[ "response" := py "N/A" ]}
        {[ "answer" := py "CPUs" ]} w
      = conciseness_evaluator i2
          (<[ "note" := py "x" ]> {[ "response" := py "yes" ]})
          {[ "answer" := py "GPUs" ]} w.
Proof.
  apply (conciseness_length_only (World := Script) _ _ _ _
           (py "N/A") (py "yes") (py "CPUs") (py "GPUs")); reflexivity.
Defined.

(** C10: against an empty reference answer the conciseness evaluator
    never passes: every output that has a response, the empty response
    included, gets the score 0, and no output at all gets the score 1. *)
Theorem conciseness_empty_answer (outputs reference_outputs : gmap string str) :
  reference_outputs !! "answer" = Some [] →
  (∀ r, outputs !! "response" = Some r →
        conciseness outputs reference_outputs = inr 0)
  ∧ conciseness {[ "response" := [] ]} reference_outputs = inr 0
  ∧ ¬ conciseness outputs reference_outputs = inr 1.
Proof.
  intros Ha.
  assert (∀ o r, o !! "response" = Some r →
                 conciseness o reference_outputs = inr 0) as Hzero.
  { intros o r Hr. rewrite (conciseness_present _ _ _ _ Hr Ha).
    rewrite len_nil. pose proof (len_nonneg r).
    destruct (Z.ltb_spec (len r) (2 * 0)); [lia|done]. }
  split; [by apply Hzero|]. split.
  - by apply (Hzero _ []).
  - destruct (outputs !! "response") as [r|] eqn:Hr.
    + by rewrite (Hzero _ _ Hr).
    + by rewrite (conciseness_no_response _ _ Hr).
Qed.

Lemma conciseness_empty_answer_witness :
  (∀ r, ({[ "response" := py "N/A" ]} : gmap string str) !! "response" = Some r →
        conciseness {[ "response" := py "N/A" ]} {[ "answer" := [] ]} = inr 0)
  ∧ conciseness {[ "response" := [] ]} {[ "answer" := [] ]} = inr 0
  ∧ ¬ conciseness {[ "response" := py "N/A" ]} {[ "answer" := [] ]} = inr 1.
Proof.
  apply (conciseness_empty_answer {[ "response" := py "N/A" ]}
           {[ "answer" := [] ]}); reflexivity.
Defined.

(** ** Judged correctness *)

Section CorrectnessFacts.
Context {World : Type} `{!Chat World}.
Implicit Types (inputs outputs reference_outputs : gmap string str).

(** Once the three fields are found, [correctness] is the judge's call
    followed by the comparison of its reply. *)
Lemma correctness_present inputs outputs reference_outputs q a p (w : World) :
  inputs !! "question" = Some q →
  reference_outputs !! "answer" = Some a →
  outputs !! "response" = Some p →
  correctness inputs outputs reference_outputs w
  = match invoke llm (judge_messages q a p) w with
    | (inl e, w') => (inl e, w')
    | (inr response, w') => (inr (bool_decide (response = py "CORRECT")), w')
    end.
Proof.
  intros Hq Ha Hp. unfold correctness, lift, mbind, M_bind, mret, M_ret.
  rewrite (getitem_Some _ _ _ Hq), (getitem_Some _ _ _ Ha),
    (getitem_Some _ _ _ Hp).
  by destruct (invoke llm (judge_messages q a p) w) as [[e|response] w'].
Qed.

End CorrectnessFacts.

(** C2: the correctness evaluator decides by exact equality of the
    judge's raw reply with ["CORRECT"]: whenever the judge replies, the
    evaluator returns normally, with true for exactly that token and
    false for any other reply. *)
Theorem correctness_exact_match {World : Type} `{!Chat World}
    (inputs outputs reference_outputs : gmap string str) (q a p response : str)
    (w w' : World) :
  inputs !! "question" = Some q →
  reference_outputs !! "answer" = Some a →
  outputs !! "response" = Some p →
  invoke llm (judge_messages q a p) w = (inr response, w') →
  correctness inputs outputs reference_outputs w
  = (inr (bool_decide (response = py "CORRECT")), w')
  ∧ (response ≠ py "CORRECT" →
     correctness inputs outputs reference_outputs w = (inr false, w'))
  ∧ (response = py "CORRECT" →
     correctness inputs outputs reference_outputs w = (inr true, w')).
Proof.
  intros Hq Ha Hp Hjudge.
  rewrite (correctness_present _ _ _ _ _ _ _ Hq Ha Hp), Hjudge.
  split; [done|]. split; intros Hres.
  - by rewrite bool_decide_eq_false_2.
  - by rewrite bool_decide_eq_true_2.
Qed.

Lemma correctness_exact_match_witness :
  correctness {[ "question" := py "Who leads the AI chip market?" ]}
    {[ "response" := py "NVIDIA" ]}
    {[ "answer" := py "NVIDIA dominates with over 80% market share" ]}
    ([inr (py "Correct")] : Script)
  = (inr (bool_decide (py "Correct" = py "CORRECT")), [])
  ∧ (py "Correct" ≠ py "CORRECT" →
     correctness {[ "question" := py "Who leads the AI chip market?" ]}
       {[ "response" := py "NVIDIA" ]}
       {[ "answer" := py "NVIDIA dominates with over 80% market share" ]}
       ([inr (py "Correct")] : Script)
     = (inr false, []))
  ∧ (py "Correct" = py "CORRECT" →
     correctness {[ "question" := py "Who leads the AI chip market?" ]}
       {[ "response" := py "NVIDIA" ]}
       {[ "answer" := py "NVIDIA dominates with over 80% market share" ]}
       ([inr (py "Correct")] : Script)
     = (inr true, [])).
Proof.
  apply (correctness_exact_match (World := Script) _ _ _
           (py "Who leads the AI chip market?")
           (py "NVIDIA dominates with over 80% market share")
           (py "NVIDIA")); reflexivity.
Defined.

(** Replies that differ from the token in case or by surrounding text
    are non-matches; the token itself matches. *)
Example correctness_replies :
  (λ reply,
     (correctness {[ "question" := py "Who leads the AI chip market?" ]}
        {[ "response" := py "NVIDIA" ]}
        {[ "answer" := py "NVIDIA dominates with over 80% market share" ]}
        ([inr (py reply)] : Script)).1)
  <$> ["CORRECT"; "correct"; "Correct"; "CORRECT."; " CORRECT";
       "Grade: CORRECT"; "INCORRECT"; ""]
  = [inr true; inr false; inr false; inr false; inr false;
     inr false; inr false; inr false].
Proof. vm_compute. reflexivity. Qed.

(** Without a judge reply there is no verdict: a missing field or a
    failed call is raised to the caller. *)
Example correctness_raises :
  (correctness ∅ {[ "response" := py "NVIDIA" ]} {[ "answer" := py "NVIDIA" ]}
     ([inr (py "CORRECT")] : Script)).1 = inl (KeyError "question")
  ∧ (correctness {[ "question" := py "Who?" ]} {[ "response" := py "NVIDIA" ]}
       {[ "answer" := py "NVIDIA" ]}
       ([inl (ExternalError (py "timeout"))] : Script)).1
    = inl (ExternalError (py "timeout")).
Proof. split; vm_compute; reflexivity. Qed.

(** ** The target wrapper *)

(** C3: on an input mapping that has a ["question"] field, and when the
    application answers, [ls_target] returns exactly the one-field
    mapping whose key is ["response"] and whose value is the
    application's answer to that question. *)
Theorem ls_target_response {World : Type} `{!Chat World}
    (inputs : gmap string str) (q answer : str) (w w' : World) :
  inputs !! "question" = Some q →
  my_app q default_model default_instructions w = (inr answer, w') →
  ∃ out : gmap string str,
    ls_target inputs w = (inr out, w')
    ∧ out = {[ "response" := answer ]}
    ∧ out !! "response" = Some answer
    ∧ dom out = {[ "response" ]}
    ∧ size out = 1%nat.
Proof.
  intros Hq Happ. exists {[ "response" := answer ]}.
  split.
  - unfold ls_target, lift, mbind, M_bind, mret, M_ret.
    by rewrite (getitem_Some _ _ _ Hq), Happ.
  - split; [done|]. split; [by rewrite lookup_singleton_eq|].
    split; [by rewrite dom_singleton_L|by rewrite map_size_singleton].
Qed.

Lemma ls_target_response_witness :
  ∃ out : gmap string str,
    ls_target {[ "question" := py "Who leads the AI chip market?" ]}
      ([inr (py "NVIDIA")] : Script) = (inr out, [])
    ∧ out = {[ "response" := py "NVIDIA" ]}
    ∧ out !! "response" = Some (py "NVIDIA")
    ∧ dom out = {[ "response" ]}
    ∧ size out = 1%nat.
Proof.
  apply (ls_target_response (World := Script) _
           (py "Who leads the AI chip market?")); reflexivity.
Defined.

(** The application's call: the default model at temperature 1, with the
    default instructions as the system message and the question as the
    user message. *)
Lemma my_app_call {World : Type} `{!Chat World} (q : str) (w : World) :
  my_app q default_model default_instructions w
  = invoke {| model := "gpt-4.1-nano-2025-04-14"; temperature := 1 |}
      [ {| role := "system";
           content := py "Respond to the users question in a short, concise manner." |};
        {| role := "user"; content := q |} ] w.
Proof. reflexivity. Qed.

(** ** The harness *)

Section RunnerFacts.
Import Harness.
Context {Id World : Type}.
Implicit Types (target : Target World) (V : list (Evaluator World))
  (e : Example Id) (E : list (Example Id)) (w : World).

Lemma run_evaluators_cons ev V e out w :
  run_evaluators (ev :: V) e out w
  = (score_of e ev (evaluate ev (input e) out (expected_output e) w).1
       :: (run_evaluators V e out
             (evaluate ev (input e) out (expected_output e) w).2).1,
     (run_evaluators V e out
        (evaluate ev (input e) out (expected_output e) w).2).2).
Proof.
  cbn. destruct (evaluate ev (input e) out (expected_output e) w) as [r w1].
  cbn. by destruct (run_evaluators V e out w1) as [ss w2].
Qed.

(** One score per registered evaluator, in registration order, each
    carrying the id of the example. *)
Lemma run_evaluators_names V e out w :
  score_evaluator <$> (run_evaluators V e out w).1 = name <$> V.
Proof.
  revert w. induction V as [|ev V IH]; intros w; [done|].
  rewrite run_evaluators_cons. cbn. rewrite IH. f_equal.
  by destruct (evaluate ev (input e) out (expected_output e) w) as [[f|v] w1].
Qed.

Lemma run_evaluators_ids V e out w :
  Forall (λ s, score_id s = id e) (run_evaluators V e out w).1.
Proof.
  revert w. induction V as [|ev V IH]; intros w; [by constructor|].
  rewrite run_evaluators_cons. cbn. constructor; [|apply IH].
  by destruct (evaluate ev (input e) out (expected_output e) w) as [[f|v] w1].
Qed.

(** The score at an evaluator's position is what that evaluator gave when
    invoked after the evaluators registered before it. *)
Lemma run_evaluators_lookup V e out w j ev :
  V !! j = Some ev →
  (run_evaluators V e out w).1 !! j
  = Some (score_of e ev
            (evaluate ev (input e) out (expected_output e)
               (run_evaluators (take j V) e out w).2).1).
Proof.
  revert w j. induction V as [|ev0 V IH]; intros w j; [done|].
  rewrite run_evaluators_cons. destruct j as [|j]; cbn [lookup list_lookup].
  - by intros [= ->].
  - intros Hev. cbn [take]. rewrite run_evaluators_cons. cbn [fst snd].
    by apply IH.
Qed.

Lemma run_example_eq target V e w :
  run_example target V e w
  = ({| example := e;
        observation := observation_of e (target (input e) w).1;
        scores :=
          (run_evaluators V e (output_of (target (input e) w).1)
             (target (input e) w).2).1 |},
     (run_evaluators V e (output_of (target (input e) w).1)
        (target (input e) w).2).2).
Proof.
  unfold run_example. destruct (target (input e) w) as [r w1]. cbn.
  by destruct (run_evaluators V e (output_of r) w1) as [ss w2].
Qed.

Lemma run_example_ok target V e w :
  example (run_example target V e w).1 = e
  ∧ entry_ok V (run_example target V e w).1.
Proof.
  rewrite run_example_eq. unfold entry_ok. cbn.
  split; [done|]. split; [|split].
  - by destruct (target (input e) w) as [[f|out] w1].
  - apply run_evaluators_names.
  - apply run_evaluators_ids.
Qed.

Lemma run_examples_cons target V e E w :
  run_examples target V (e :: E) w
  = ((run_example target V e w).1
       :: (run_examples target V E (run_example target V e w).2).1,
     (run_examples target V E (run_example target V e w).2).2).
Proof.
  cbn. destruct (run_example target V e w) as [entry w1]. cbn.
  by destruct (run_examples target V E w1) as [more w2].
Qed.


Lemma run_examples_examples target V E w :
  example <$> (run_examples target V E w).1 = E.
Proof.
  revert w. induction E as [|e E IH]; intros w; [done|].
  rewrite run_examples_cons. cbn.
  by rewrite IH, (proj1 (run_example_ok target V e w)).
Qed.

Lemma run_examples_ok target V E w :
  Forall (entry_ok V) (run_examples target V E w).1.
Proof.
  revert w. induction E as [|e E IH]; intros w; [by constructor|].
  rewrite run_examples_cons. cbn.
  constructor; [apply run_example_ok|apply IH].
Qed.

(** The entry at an example's position is the processing of that example
    from the world the examples before it left. *)
Lemma run_examples_lookup target V E w i e :
  E !! i = Some e →
  (run_examples target V E w).1 !! i
  = Some (run_example target V e (run_examples target V (take i E) w).2).1.
Proof.
  revert w i. induction E as [|e0 E IH]; intros w i; [done|].
  rewrite run_examples_cons. destruct i as [|i]; cbn [lookup list_lookup].
  - by intros [= ->].
  - intros He. cbn [take]. rewrite run_examples_cons. cbn [fst snd].
    by apply IH.
Qed.

Lemma scores_count V (ens : list (Entry Id)) :
  Forall (entry_ok V) ens →
  length (concat (scores <$> ens)) = (length ens * length V)%nat.
Proof.
  induction 1 as [|en ens (_ & Hnames & _) _ IH]; [done|].
  cbn [fmap list_fmap concat]. rewrite length_app, IH. cbn [length].
  rewrite <- (length_fmap score_evaluator), Hnames, length_fmap. lia.
Qed.

Lemma run_entries clock E target V label w :
  entries (run clock E target V label w).1 = (run_examples target V E w).1.
Proof. unfold run. by destruct (run_examples target V E w). Qed.

End RunnerFacts.

(** C6: a run has exactly one entry, with one Observation, per example,
    in the order of the examples, and every entry has exactly one Score
    per registered evaluator, in registration order: |E| Observations
    and |E| x |V| Scores, none missing and none twice.  The Observation
    of an example is what its target invocation gave (a Failure
    Observation where it failed), and its Score for an evaluator is what
    that evaluator's invocation gave (a Failure Score where it
    failed). *)
Theorem run_counts {Id World : Type} (clock : World → Z)
    (E : list (Harness.Example Id)) (target : Harness.Target World)
    (V : list (Harness.Evaluator World)) (label : str) (w : World) :
  let r := (Harness.run clock E target V label w).1 in
  Harness.example <$> Harness.entries r = E
  ∧ length (Harness.observations r) = length E
  ∧ length (Harness.all_scores r) = (length E * length V)%nat
  ∧ Forall (Harness.entry_ok V) (Harness.entries r)
  ∧ ∀ i e, E !! i = Some e →
      let t := target (Harness.input e)
                 (Harness.run_examples target V (take i E) w).2 in
      ∃ en,
        Harness.entries r !! i = Some en
        ∧ Harness.example en = e
        ∧ Harness.observation en = Harness.observation_of e t.1
        ∧ ∀ j ev, V !! j = Some ev →
            Harness.scores en !! j
            = Some (Harness.score_of e ev
                      (Harness.evaluate ev (Harness.input e)
                         (Harness.output_of t.1) (Harness.expected_output e)
                         (Harness.run_evaluators (take j V) e
                            (Harness.output_of t.1) t.2).2).1).
Proof.
  intros r. subst r. unfold Harness.observations, Harness.all_scores.
  rewrite run_entries.
  pose proof (run_examples_examples target V E w) as HE.
  pose proof (run_examples_ok target V E w) as Hok.
  assert (length (Harness.run_examples target V E w).1 = length E) as Hlen.
  { rewrite <- (length_fmap Harness.example). by rewrite HE. }
  split; [done|]. split; [by rewrite length_fmap|].
  split; [by rewrite (scores_count V _ Hok), Hlen|].
  split; [done|].
  intros i e He. cbv zeta. eexists. split; [by apply run_examples_lookup|].
  rewrite run_example_eq. cbn. split; [done|]. split; [done|].
  intros j ev Hev. by apply run_evaluators_lookup.
Qed.

Lemma run_counts_witness :
  ∃ en,
    Harness.entries
      (Harness.run Demo.clock [Demo.with_question; Demo.without_question]
         Demo.echo_target [Demo.concise] (py "demo") 0%nat).1 !! 1%nat
    = Some en
    ∧ Harness.example en = Demo.without_question
    ∧ Harness.is_failed (Harness.observation en) = true
    ∧ Harness.is_failed_score <$> Harness.scores en = [true].
Proof.
  destruct (run_counts Demo.clock [Demo.with_question; Demo.without_question]
              Demo.echo_target [Demo.concise] (py "demo") 0%nat)
    as (_ & _ & _ & Hok & Hentry).
  destruct (Hentry 1%nat Demo.without_question eq_refl)
    as (en & Hen & Hex & Hobs & Hscore).
  exists en. split; [exact Hen|]. split; [exact Hex|]. split.
  - rewrite Hobs. reflexivity.
  - specialize (Hscore 0%nat Demo.concise eq_refl).
    apply Forall_lookup_1 with (i := 1%nat) (x := en) in Hok; [|exact Hen].
    destruct Hok as (_ & Hnames & _).
    destruct (Harness.scores en) as [|s [|s' ss]]; [discriminate|
                                                    |discriminate].
    cbn in Hscore. injection Hscore as ->. reflexivity.
Defined.




(** The run of the three examples above, evaluated: every example has
    its score, the failed one a Failure Score, and the world counts six
    invocations (three of the target, three of the evaluator). *)
Example run_demo :
  let '(r, w) :=
    Harness.run Demo.clock
      [Demo.with_question; Demo.without_question; Demo.with_question]
      Demo.echo_target [Demo.concise] (py "demo") 0%nat in
  Harness.is_failed <$> Harness.observations r = [false; true; false]
  ∧ (length ∘ Harness.scores) <$> Harness.entries r = [1; 1; 1]%nat
  ∧ Harness.is_failed_score <$> Harness.all_scores r = [false; true; false]
  ∧ w = 6%nat.
Proof. vm_compute. done. Qed.

(** ** The example store *)

(** C8: adding an example whose id is already the id of a stored example
    fails with [DuplicateIdError] and leaves the store as it was: the
    same examples in the same order, and nothing new. *)
Theorem add_duplicate_unchanged {Id : Type} `{!EqDecision Id}
    (s : Harness.Store Id) (e e' : Harness.Example Id) :
  e' ∈ Harness.all s →
  Harness.id e' = Harness.id e →
  Harness.add e s = (inl Harness.DuplicateIdError, s)
  ∧ Harness.all (Harness.add e s).2 = Harness.all s
  ∧ ∀ x, x ∈ Harness.all (Harness.add e s).2 ↔ x ∈ Harness.all s.
Proof.
  intros Hin Hid.
  assert (Harness.add e s = (inl Harness.DuplicateIdError, s)) as Hadd.
  { unfold Harness.add. rewrite decide_True; [done|].
    rewrite <- Hid. apply list_elem_of_fmap. by exists e'. }
  rewrite Hadd. done.
Qed.

Lemma add_duplicate_unchanged_witness :
  Harness.add Demo.with_question [Demo.without_question; Demo.with_question]
  = (inl Harness.DuplicateIdError,
     [Demo.without_question; Demo.with_question])
  ∧ Harness.all
      (Harness.add Demo.with_question
         [Demo.without_question; Demo.with_question]).2
    = Harness.all [Demo.without_question; Demo.with_question]
  ∧ ∀ x,
      x ∈ Harness.all
            (Harness.add Demo.with_question
               [Demo.without_question; Demo.with_question]).2
      ↔ x ∈ Harness.all [Demo.without_question; Demo.with_question].
Proof.
  apply (add_duplicate_unchanged
           [Demo.without_question; Demo.with_question]
           Demo.with_question Demo.with_question);
    [|reflexivity].
  unfold Harness.all. apply list_elem_of_In. right. left. reflexivity.
Defined.

(** An example with a fresh id is appended at the end. *)
Lemma add_fresh {Id : Type} `{!EqDecision Id}
    (s : Harness.Store Id) (e : Harness.Example Id) :
  Harness.id e ∉ Harness.id <$> s →
  Harness.add e s = (inr tt, s ++ [e]).
Proof. intros Hnew. unfold Harness.add. by rewrite decide_False. Qed.

(** * Further properties of the notebook's functions *)

(** ** Conciseness: errors, monotonicity, the reference as response *)

(** On mappings of strings, where [len] cannot raise, [conciseness_any]
    is [conciseness]. *)
Lemma conciseness_any_on_strings (outputs reference_outputs : gmap string str) :
  conciseness_any (Err := Empty_set) (λ s, inr (len s))
    outputs reference_outputs
  = match conciseness outputs reference_outputs with
    | inr score => inr score
    | inl (KeyError key) => inl (Lookup key)
    | inl (ExternalError _) => inl (Lookup "")
    end
  ∧ ∀ msg, conciseness outputs reference_outputs ≠ inl (ExternalError msg).
Proof.
  unfold conciseness_any, conciseness, getitem.
  destruct (outputs !! "response") as [r|]; [|done]. cbn.
  by destruct (reference_outputs !! "answer") as [a|].
Qed.

(** X1: what [conciseness] raises, in order of precedence, whatever the
    type of the values: [KeyError] for ["response"] when the outputs
    lack it; what [len] raises on the response (a [TypeError] on [None]),
    even when the reference has no answer; [KeyError] for ["answer"];
    what [len] raises on the answer; and nothing else. *)
Theorem conciseness_any_errors {Val Err : Type} (py_len : Val → Err + Z)
    (outputs reference_outputs : gmap string Val) :
  (outputs !! "response" = None →
   conciseness_any py_len outputs reference_outputs = inl (Lookup "response"))
  ∧ (∀ r e, outputs !! "response" = Some r → py_len r = inl e →
       conciseness_any py_len outputs reference_outputs = inl (InLen e))
  ∧ (∀ r n, outputs !! "response" = Some r → py_len r = inr n →
       reference_outputs !! "answer" = None →
       conciseness_any py_len outputs reference_outputs
       = inl (Lookup "answer"))
  ∧ (∀ r n a e, outputs !! "response" = Some r → py_len r = inr n →
       reference_outputs !! "answer" = Some a → py_len a = inl e →
       conciseness_any py_len outputs reference_outputs = inl (InLen e))
  ∧ (∀ x, conciseness_any py_len outputs reference_outputs = inl x →
       (x = Lookup "response" ∧ outputs !! "response" = None)
       ∨ (∃ r e, x = InLen e ∧ outputs !! "response" = Some r
                 ∧ py_len r = inl e)
       ∨ (∃ r n, x = Lookup "answer" ∧ outputs !! "response" = Some r
                 ∧ py_len r = inr n ∧ reference_outputs !! "answer" = None)
       ∨ (∃ r n a e, x = InLen e ∧ outputs !! "response" = Some r
                     ∧ py_len r = inr n
                     ∧ reference_outputs !! "answer" = Some a
                     ∧ py_len a = inl e)).
Proof.
  unfold conciseness_any. repeat split.
  - by intros ->.
  - by intros r e -> ->.
  - by intros r n -> -> ->.
  - by intros r n a e -> -> -> ->.
  - intros x. destruct (outputs !! "response") as [r|] eqn:Hr.
    2: { intros [= <-]. by left. }
    destruct (py_len r) as [e|n] eqn:Hlr.
    { intros [= <-]. right. left. by exists r, e. }
    destruct (reference_outputs !! "answer") as [a|] eqn:Ha.
    2: { intros [= <-]. right. right. left. by exists r, n. }
    destruct (py_len a) as [e|m] eqn:Hla; [|done].
    intros [= <-]. right. right. right. by exists r, n, a, e.
Qed.

Lemma conciseness_any_errors_witness :
  conciseness_any len_or_none ∅ ∅ = inl (Lookup "response")
  ∧ conciseness_any len_or_none {[ "response" := None ]}
      {[ "answer" := Some (py "ab") ]} = inl (InLen LenTypeError)
  ∧ conciseness_any len_or_none {[ "response" := None ]} ∅
    = inl (InLen LenTypeError)
  ∧ conciseness_any len_or_none {[ "response" := Some (py "N/A") ]} ∅
    = inl (Lookup "answer")
  ∧ conciseness_any len_or_none {[ "response" := Some (py "N/A") ]}
      {[ "answer" := None ]} = inl (InLen LenTypeError).
Proof.
  split; [|split; [|split; [|split]]].
  - apply (proj1 (conciseness_any_errors len_or_none ∅ ∅)). reflexivity.
  - apply (proj1 (proj2 (conciseness_any_errors len_or_none
                           {[ "response" := None ]}
                           {[ "answer" := Some (py "ab") ]})) None);
      reflexivity.
  - apply (proj1 (proj2 (conciseness_any_errors len_or_none
                           {[ "response" := None ]} ∅)) None);
      reflexivity.
  - apply (proj1 (proj2 (proj2 (conciseness_any_errors len_or_none
                                  {[ "response" := Some (py "N/A") ]} ∅)))
             (Some (py "N/A")) 3);
      reflexivity.
  - apply (proj1 (proj2 (proj2 (proj2
             (conciseness_any_errors len_or_none
                {[ "response" := Some (py "N/A") ]} {[ "answer" := None ]}))))
             (Some (py "N/A")) 3 None);
      reflexivity.
Defined.

(** X2: a pass survives a response that is no longer and a reference answer
    that is no shorter. *)
Theorem conciseness_monotone (o r o' r' : gmap string str) (p a p' a' : str) :
  o !! "response" = Some p →
  r !! "answer" = Some a →
  o' !! "response" = Some p' →
  r' !! "answer" = Some a' →
  len p' ≤ len p →
  len a ≤ len a' →
  conciseness o r = inr 1 →
  conciseness o' r' = inr 1.
Proof.
  intros Hp Ha Hp' Ha' Hlp Hla.
  rewrite (conciseness_present _ _ _ _ Hp Ha),
    (conciseness_present _ _ _ _ Hp' Ha').
  destruct (Z.ltb_spec (len p) (2 * len a)); [|done]. intros _.
  destruct (Z.ltb_spec (len p') (2 * len a')); [done|lia].
Qed.

Lemma conciseness_monotone_witness :
  conciseness {[ "response" := py "AMD" ]} {[ "answer" := py "NVIDIA" ]}
  = inr 1.
Proof.
  apply (conciseness_monotone
           {[ "response" := py "CPUs" ]} {[ "answer" := py "GPU" ]} _ _
           (py "CPUs") (py "GPU") (py "AMD") (py "NVIDIA"));
    reflexivity || (vm_compute; discriminate).
Defined.

Lemma len_app (s t : str) : len (s ++ t) = len s + len t.
Proof. unfold len. rewrite length_app. lia. Qed.

(** X3: the reference answer given back as the response passes unless it is
    empty, and the reference answer given twice over never passes. *)
Theorem conciseness_of_reference (a : str) :
  conciseness {[ "response" := a ]} {[ "answer" := a ]}
  = inr (if decide (a = []) then 0 else 1)
  ∧ conciseness {[ "response" := a ++ a ]} {[ "answer" := a ]} = inr 0.
Proof.
  split.
  - rewrite (conciseness_present _ _ a a)
      by apply lookup_singleton_eq.
    destruct a as [|c a]; [done|].
    rewrite decide_False by done.
    destruct (Z.ltb_spec (len (c :: a)) (2 * len (c :: a))); [done|].
    unfold len in *. cbn [length] in *. lia.
  - rewrite (conciseness_present _ _ (a ++ a) a)
      by apply lookup_singleton_eq.
    rewrite len_app.
    destruct (Z.ltb_spec (len a + len a) (2 * len a)); [lia|done].
Qed.

(** ** Correctness: errors and what the judge is shown *)

Section JudgeFacts.
Context {World : Type} `{!Chat World}.
Implicit Types (i o r : gmap string str) (w : World).

Lemma correctness_no_question i o r w :
  i !! "question" = None →
  correctness i o r w = (inl (KeyError "question"), w).
Proof.
  intros Hq. unfold correctness, lift, mbind, M_bind.
  by rewrite (getitem_None _ _ Hq).
Qed.

Lemma correctness_no_answer i o r q w :
  i !! "question" = Some q →
  r !! "answer" = None →
  correctness i o r w = (inl (KeyError "answer"), w).
Proof.
  intros Hq Ha. unfold correctness, lift, mbind, M_bind.
  by rewrite (getitem_Some _ _ _ Hq), (getitem_None _ _ Ha).
Qed.

Lemma correctness_no_response i o r q a w :
  i !! "question" = Some q →
  r !! "answer" = Some a →
  o !! "response" = None →
  correctness i o r w = (inl (KeyError "response"), w).
Proof.
  intros Hq Ha Hp. unfold correctness, lift, mbind, M_bind.
  by rewrite (getitem_Some _ _ _ Hq), (getitem_Some _ _ _ Ha),
    (getitem_None _ _ Hp).
Qed.

(** With the question present, [ls_target] is the application's call
    followed by the wrapping of its answer. *)
Lemma ls_target_present i q w :
  i !! "question" = Some q →
  ls_target i w
  = match my_app q default_model default_instructions w with
    | (inl e, w') => (inl e, w')
    | (inr answer, w') => (inr {[ "response" := answer ]}, w')
    end.
Proof.
  intros Hq. unfold ls_target, lift, mbind, M_bind, mret, M_ret.
  rewrite (getitem_Some _ _ _ Hq).
  by destruct (my_app q default_model default_instructions w) as [[e|ans] w'].
Qed.

Lemma ls_target_no_question i w :
  i !! "question" = None →
  ls_target i w = (inl (KeyError "question"), w).
Proof.
  intros Hq. unfold ls_target, lift, mbind, M_bind.
  by rewrite (getitem_None _ _ Hq).
Qed.

End JudgeFacts.

(** X4: [correctness] looks its fields up in the order question, reference
    answer, response: the first one missing is the [KeyError] raised,
    and the judge is not called (the world is left as it was). *)
Theorem correctness_missing_field {World : Type} `{!Chat World}
    (i o r : gmap string str) (w : World) :
  (i !! "question" = None →
   correctness i o r w = (inl (KeyError "question"), w))
  ∧ (is_Some (i !! "question") → r !! "answer" = None →
     correctness i o r w = (inl (KeyError "answer"), w))
  ∧ (is_Some (i !! "question") → is_Some (r !! "answer") →
     o !! "response" = None →
     correctness i o r w = (inl (KeyError "response"), w)).
Proof.
  split; [apply correctness_no_question|]. split.
  - intros [q Hq]. by apply correctness_no_answer with q.
  - intros [q Hq] [a Ha]. by apply correctness_no_response with q a.
Qed.

Lemma correctness_missing_field_witness :
  correctness ∅ ∅ ∅ ([inr (py "CORRECT")] : Script)
  = (inl (KeyError "question"), [inr (py "CORRECT")])
  ∧ correctness {[ "question" := py "Who?" ]} ∅ ∅
      ([inr (py "CORRECT")] : Script)
    = (inl (KeyError "answer"), [inr (py "CORRECT")])
  ∧ correctness {[ "question" := py "Who?" ]} ∅ {[ "answer" := py "AMD" ]}
      ([inr (py "CORRECT")] : Script)
    = (inl (KeyError "response"), [inr (py "CORRECT")]).
Proof.
  split; [|split].
  - apply (proj1 (correctness_missing_field (World := Script) ∅ ∅ ∅ _)).
    reflexivity.
  - apply (proj1 (proj2 (correctness_missing_field (World := Script)
                           {[ "question" := py "Who?" ]} ∅ ∅ _)));
      [by eexists|reflexivity].
  - apply (proj2 (proj2 (correctness_missing_field (World := Script)
                           {[ "question" := py "Who?" ]} ∅
                           {[ "answer" := py "AMD" ]} _)));
      [by eexists|by eexists|reflexivity].
Defined.

(** X5: when the judge's call fails, [correctness] gives no verdict: the
    failure is raised to the caller as it is. *)
Theorem correctness_judge_failure {World : Type} `{!Chat World}
    (i o r : gmap string str) (q a p : str) (e : exn) (w w' : World) :
  i !! "question" = Some q →
  r !! "answer" = Some a →
  o !! "response" = Some p →
  invoke llm (judge_messages q a p) w = (inl e, w') →
  correctness i o r w = (inl e, w').
Proof.
  intros Hq Ha Hp Hjudge.
  by rewrite (correctness_present _ _ _ _ _ _ _ Hq Ha Hp), Hjudge.
Qed.

Lemma correctness_judge_failure_witness :
  correctness {[ "question" := py "Who?" ]} {[ "response" := py "AMD" ]}
    {[ "answer" := py "AMD" ]} ([inl (ExternalError (py "timeout"))] : Script)
  = (inl (ExternalError (py "timeout")), []).
Proof.
  apply (correctness_judge_failure (World := Script) _ _ _
           (py "Who?") (py "AMD") (py "AMD")); reflexivity.
Defined.

(** X6: the judge's prompt does not delimit its fields: a question that
    continues with the prompt's own ["Here is the real answer:"] line
    reads the same as a shorter question with a longer reference
    answer, so the two gradings get the same verdict. *)
Theorem correctness_prompt_ambiguity {World : Type} `{!Chat World}
    (q x a p : str) (w : World) :
  let sep := py (nl +:+ "    Here is the real answer:" +:+ nl +:+ "    ") in
  user_content (q ++ sep ++ x) a p = user_content q (x ++ sep ++ a) p
  ∧ correctness {[ "question" := q ++ sep ++ x ]} {[ "response" := p ]}
      {[ "answer" := a ]} w
    = correctness {[ "question" := q ]} {[ "response" := p ]}
        {[ "answer" := x ++ sep ++ a ]} w.
Proof.
  intros sep.
  assert (user_content (q ++ sep ++ x) a p = user_content q (x ++ sep ++ a) p)
    as Hsame.
  { unfold user_content. fold sep. by rewrite <- !(assoc_L (++)). }
  split; [done|].
  rewrite (correctness_present _ _ _ (q ++ sep ++ x) a p)
    by apply lookup_singleton_eq.
  rewrite (correctness_present _ _ _ q (x ++ sep ++ a) p)
    by apply lookup_singleton_eq.
  unfold judge_messages. by rewrite Hsame.
Qed.

(** X7: [correctness] reads nothing but the three fields: mappings that
    agree on them are graded alike, whatever else they hold. *)
Theorem correctness_reads_three_fields {World : Type} `{!Chat World}
    (i o r i' o' r' : gmap string str) (w : World) :
  i !! "question" = i' !! "question" →
  r !! "answer" = r' !! "answer" →
  o !! "response" = o' !! "response" →
  correctness i o r w = correctness i' o' r' w.
Proof.
  intros Hq Ha Hp.
  destruct (i !! "question") as [q|] eqn:Hq1; symmetry in Hq.
  2: { by rewrite !correctness_no_question. }
  destruct (r !! "answer") as [a|] eqn:Ha1; symmetry in Ha.
  2: { by rewrite !(correctness_no_answer _ _ _ q). }
  destruct (o !! "response") as [p|] eqn:Hp1; symmetry in Hp.
  2: { by rewrite !(correctness_no_response _ _ _ q a). }
  by rewrite !(correctness_present _ _ _ q a p).
Qed.

Lemma correctness_reads_three_fields_witness :
  correctness {[ "question" := py "Who?" ]} {[ "response" := py "AMD" ]}
    {[ "answer" := py "AMD" ]} ([inr (py "CORRECT")] : Script)
  = correctness (<[ "topic" := py "chips" ]> {[ "question" := py "Who?" ]})
      (<[ "model" := py "nano" ]> {[ "response" := py "AMD" ]})
      (<[ "source" := py "10-K" ]> {[ "answer" := py "AMD" ]})
      ([inr (py "CORRECT")] : Script).
Proof.
  apply (correctness_reads_three_fields (World := Script)); reflexivity.
Defined.

(** ** The target wrapper: errors and composition with the evaluators *)

(** X8: [ls_target] raises [KeyError] for ["question"] without calling the
    model when the field is missing, passes on a failure of the
    application's call, and raises in no other way. *)
Theorem ls_target_errors {World : Type} `{!Chat World}
    (i : gmap string str) (w : World) :
  (i !! "question" = None →
   ls_target i w = (inl (KeyError "question"), w))
  ∧ (∀ q e w', i !! "question" = Some q →
       my_app q default_model default_instructions w = (inl e, w') →
       ls_target i w = (inl e, w'))
  ∧ (∀ e w', ls_target i w = (inl e, w') →
       (i !! "question" = None ∧ e = KeyError "question" ∧ w' = w)
       ∨ (∃ q, i !! "question" = Some q
               ∧ my_app q default_model default_instructions w = (inl e, w'))).
Proof.
  split; [apply ls_target_no_question|]. split.
  - intros q e w' Hq Happ. by rewrite (ls_target_present _ _ _ Hq), Happ.
  - intros e w'. destruct (i !! "question") as [q|] eqn:Hq.
    + rewrite (ls_target_present _ _ _ Hq).
      destruct (my_app q default_model default_instructions w)
        as [[e0|ans] w0] eqn:Happ; [|done].
      intros [= <- <-]. right. by exists q.
    + rewrite (ls_target_no_question _ _ Hq). intros [= <- <-]. by left.
Qed.

Lemma ls_target_errors_witness :
  ls_target {[ "prompt" := py "Who?" ]} ([inr (py "AMD")] : Script)
  = (inl (KeyError "question"), [inr (py "AMD")])
  ∧ ls_target {[ "question" := py "Who?" ]}
      ([inl (ExternalError (py "rate limit")); inr (py "AMD")] : Script)
    = (inl (ExternalError (py "rate limit")), [inr (py "AMD")]).
Proof.
  split.
  - apply (proj1 (ls_target_errors (World := Script) _ _)). reflexivity.
  - apply (proj1 (proj2 (ls_target_errors (World := Script)
                           {[ "question" := py "Who?" ]} _)) (py "Who?"));
      reflexivity.
Defined.

(** X9: whatever [ls_target] returns is accepted by [conciseness]: against a
    reference that has its answer, the output is scored by comparing the
    application's answer with it, and no [KeyError] is raised. *)
Theorem ls_target_output_scored {World : Type} `{!Chat World}
    (i r out : gmap string str) (a : str) (w w' : World) :
  r !! "answer" = Some a →
  ls_target i w = (inr out, w') →
  ∃ q answer,
    i !! "question" = Some q
    ∧ my_app q default_model default_instructions w = (inr answer, w')
    ∧ conciseness out r = inr (Z.b2z (len answer <? 2 * len a)).
Proof.
  intros Ha Hrun. destruct (i !! "question") as [q|] eqn:Hq.
  - rewrite (ls_target_present _ _ _ Hq) in Hrun.
    destruct (my_app q default_model default_instructions w)
      as [[e|answer] w0] eqn:Happ; [done|].
    injection Hrun as <- <-. exists q, answer.
    split; [done|]. split; [done|].
    by apply conciseness_present; [apply lookup_singleton_eq|].
  - by rewrite (ls_target_no_question _ _ Hq) in Hrun.
Qed.

Lemma ls_target_output_scored_witness :
  ∃ q answer,
    ({[ "question" := py "Who leads the AI chip market?" ]} : gmap string str)
      !! "question" = Some q
    ∧ my_app q default_model default_instructions
        ([inr (py "NVIDIA")] : Script) = (inr answer, [])
    ∧ conciseness {[ "response" := py "NVIDIA" ]}
        {[ "answer" := py "NVIDIA dominates with over 80% market share" ]}
      = inr (Z.b2z (len answer
                    <? 2 * len (py "NVIDIA dominates with over 80% market share"))).
Proof.
  apply (ls_target_output_scored (World := Script)
           {[ "question" := py "Who leads the AI chip market?" ]}); reflexivity.
Defined.

(** X10: the target followed by the judge: the application is called first,
    the judge is then asked about the application's answer to the
    example's question against the example's reference answer, and the
    verdict is whether the judge replied ["CORRECT"]. *)
Theorem target_then_correctness {World : Type} `{!Chat World}
    (i r : gmap string str) (q a answer reply : str) (w w1 w2 : World) :
  i !! "question" = Some q →
  r !! "answer" = Some a →
  my_app q default_model default_instructions w = (inr answer, w1) →
  invoke llm (judge_messages q a answer) w1 = (inr reply, w2) →
  (ls_target i ≫= λ out, correctness i out r) w
  = (inr (bool_decide (reply = py "CORRECT")), w2).
Proof.
  intros Hq Ha Happ Hjudge. unfold mbind at 1. unfold M_bind.
  rewrite (ls_target_present _ _ _ Hq), Happ.
  rewrite (correctness_present _ _ _ q a answer)
    by (done || apply lookup_singleton_eq).
  by rewrite Hjudge.
Qed.

Lemma target_then_correctness_witness :
  (ls_target {[ "question" := py "Who leads the AI chip market?" ]}
   ≫= λ out,
     correctness {[ "question" := py "Who leads the AI chip market?" ]} out
       {[ "answer" := py "NVIDIA dominates with over 80% market share" ]})
    ([inr (py "NVIDIA"); inr (py "CORRECT")] : Script)
  = (inr (bool_decide (py "CORRECT" = py "CORRECT")), []).
Proof.
  apply (target_then_correctness (World := Script) _ _
           (py "Who leads the AI chip market?")
           (py "NVIDIA dominates with over 80% market share")
           (py "NVIDIA") (py "CORRECT") _ [inr (py "CORRECT")]);
    reflexivity.
Defined.



(** * The environment set-up cell *)

Section StripFacts.
Import Setup.
Implicit Types (s t : str) (c : N).

Lemma lstrip_head s c : head (lstrip s) = Some c → isspace c = false.
Proof.
  induction s as [|x s IH]; cbn; [done|].
  destruct (isspace x) eqn:Hx; [done|]. cbn. by intros [= <-].
Qed.

Lemma lstrip_nil s : lstrip s = [] ↔ Forall (λ c, isspace c = true) s.
Proof.
  induction s as [|x s IH]; cbn; [by split; [constructor|]|].
  destruct (isspace x) eqn:Hx.
  - rewrite IH. split; [by constructor|]. by intros [_ ?]%Forall_cons.
  - split; [done|]. intros [Hx' _]%Forall_cons. congruence.
Qed.

Lemma lstrip_split s :
  ∃ pre, s = pre ++ lstrip s ∧ Forall (λ c, isspace c = true) pre.
Proof.
  induction s as [|x s (pre & Hs & Hpre)]; cbn; [by exists []|].
  destruct (isspace x) eqn:Hx.
  - exists (x :: pre). split; [by rewrite <- app_comm_cons, <- Hs|].
    by constructor.
  - by exists [].
Qed.

Lemma lstrip_snoc s c :
  isspace c = false → lstrip (s ++ [c]) = lstrip s ++ [c].
Proof.
  intros Hc. induction s as [|x s IH]; cbn; [by rewrite Hc|].
  by destruct (isspace x).
Qed.

Lemma rstrip_cons s c : isspace c = false → rstrip (c :: s) = c :: rstrip s.
Proof.
  intros Hc. unfold rstrip.
  by rewrite reverse_cons, (lstrip_snoc _ _ Hc), reverse_snoc.
Qed.

Lemma rstrip_last s c : last (rstrip s) = Some c → isspace c = false.
Proof. unfold rstrip. rewrite last_reverse. apply lstrip_head. Qed.

Lemma rstrip_split s :
  ∃ post, s = rstrip s ++ post ∧ Forall (λ c, isspace c = true) post.
Proof.
  destruct (lstrip_split (reverse s)) as (pre & Hs & Hpre).
  exists (reverse pre). split.
  - unfold rstrip. rewrite <- reverse_app, <- Hs.
    by rewrite reverse_involutive.
  - by apply Forall_reverse.
Qed.

Lemma strip_head s c : head (strip s) = Some c → isspace c = false.
Proof.
  unfold strip. pose proof (lstrip_head s) as Hhead.
  destruct (lstrip s) as [|x t]; [done|].
  rewrite (rstrip_cons _ _ (Hhead x eq_refl)). cbn. intros [= <-]. by apply Hhead.
Qed.

Lemma strip_nil s : strip s = [] ↔ Forall (λ c, isspace c = true) s.
Proof.
  rewrite <- lstrip_nil. unfold strip. pose proof (lstrip_head s) as Hhead.
  destruct (lstrip s) as [|x t]; [done|].
  by rewrite (rstrip_cons _ _ (Hhead x eq_refl)).
Qed.

Lemma strip_split s :
  ∃ pre post,
    s = pre ++ strip s ++ post
    ∧ Forall (λ c, isspace c = true) pre
    ∧ Forall (λ c, isspace c = true) post.
Proof.
  destruct (lstrip_split s) as (pre & Hs & Hpre).
  destruct (rstrip_split (lstrip s)) as (post & Ht & Hpost).
  exists pre, post. split; [|done]. unfold strip. by rewrite <- Ht.
Qed.

End StripFacts.

(** X12: the tracing setting the cell stores is never empty and never has
    whitespace at either end: it is ["true"] when the reply is blank,
    and otherwise the reply without its surrounding whitespace, whatever
    it says. *)
Theorem tracing_choice_trimmed (reply : str) :
  let v := Setup.tracing_choice reply in
  v ≠ []
  ∧ (∀ c, head v = Some c → Setup.isspace c = false)
  ∧ (∀ c, last v = Some c → Setup.isspace c = false)
  ∧ (Forall (λ c, Setup.isspace c = true) reply → v = py "true")
  ∧ (¬ Forall (λ c, Setup.isspace c = true) reply →
     ∃ pre post,
       reply = pre ++ v ++ post
       ∧ Forall (λ c, Setup.isspace c = true) pre
       ∧ Forall (λ c, Setup.isspace c = true) post).
Proof.
  intros v. subst v. unfold Setup.tracing_choice, Setup.str_or.
  pose proof (strip_nil reply) as Hnil.
  pose proof (strip_head reply) as Hhead.
  pose proof (rstrip_last (Setup.lstrip reply)) as Hlast.
  pose proof (strip_split reply) as Hsplit.
  fold (Setup.strip reply) in Hlast.
  destruct (Setup.strip reply) as [|x t] eqn:Hstrip.
  - split; [done|]. split; [by intros c [= <-]|].
    split; [by intros c [= <-]|]. split; [done|].
    intros Hblank. destruct Hblank. by apply Hnil.
  - split; [done|]. split; [done|]. split; [done|]. split; [|done].
    intros Hblank. by apply Hnil in Hblank.
Qed.

Lemma tracing_choice_trimmed_witness :
  Setup.tracing_choice (py "  ") = py "true"
  ∧ ∃ pre post,
      py " False " = pre ++ Setup.tracing_choice (py " False ") ++ post
      ∧ Forall (λ c, Setup.isspace c = true) pre
      ∧ Forall (λ c, Setup.isspace c = true) post.
Proof.
  split.
  - apply (proj1 (proj2 (proj2 (proj2 (tracing_choice_trimmed (py "  ")))))).
    by repeat constructor.
  - apply (proj2 (proj2 (proj2 (proj2 (tracing_choice_trimmed (py " False ")))))).
    intros Hblank. apply Forall_cons in Hblank as [_ Hblank].
    apply Forall_cons in Hblank as [Hf _]. vm_compute in Hf. discriminate Hf.
Defined.

Section CellFacts.
Import Setup.
Variable storable : str → bool.
Implicit Types (c : console) (key : string) (ev : event).

Lemma Cell_bind_inv {A B} (m : Cell A) (f : A → Cell B) c r c' :
  (m ≫= f) c = (r, c') →
  (∃ e, m c = (inl e, c') ∧ r = inl e)
  ∨ (∃ a c1, m c = (inr a, c1) ∧ f a c1 = (r, c')).
Proof.
  unfold mbind, Cell_bind. destruct (m c) as [[e|a] c1].
  - intros [= <- <-]. left. by exists e.
  - intros Hf. right. by exists a, c1.
Qed.

Lemma Cell_bind_ok {A B} (m : Cell A) (f : A → Cell B) c a c1 :
  m c = (inr a, c1) → (m ≫= f) c = f a c1.
Proof. unfold mbind, Cell_bind. by intros ->. Qed.

Lemma Cell_bind_fail {A B} (m : Cell A) (f : A → Cell B) c e c1 :
  m c = (inl e, c1) → (m ≫= f) c = (inl e, c1).
Proof. unfold mbind, Cell_bind. by intros ->. Qed.

Lemma evolves_refl c : evolves c c.
Proof.
  unfold evolves. repeat split; try done.
  - exists []. by rewrite app_nil_r.
  - by exists [].
Qed.

Lemma evolves_trans c1 c2 c3 : evolves c1 c2 → evolves c2 c3 → evolves c1 c3.
Proof.
  intros (Hf1 & Hk1 & Hs1 & (sh1 & Hsh1 & Hm1) & (u1 & Hu1))
         (Hf2 & Hk2 & Hs2 & (sh2 & Hsh2 & Hm2) & (u2 & Hu2)).
  unfold evolves. repeat split.
  - intros k Hk. by rewrite Hf2, Hf1.
  - intros k v Hk Hv Hne. apply Hk2; [done| |done]. by apply Hk1.
  - intros k Hk. by apply Hs2, Hs1.
  - exists (sh1 ++ sh2). rewrite Hsh2, Hsh1, app_assoc. split; [done|].
    by apply Forall_app.
  - exists (u1 ++ u2). by rewrite Hu1, Hu2, app_assoc.
Qed.

Lemma evolves_bind {A B} (m : Cell A) (f : A → Cell B) :
  (∀ c r c', m c = (r, c') → evolves c c') →
  (∀ a c r c', f a c = (r, c') → evolves c c') →
  ∀ c r c', (m ≫= f) c = (r, c') → evolves c c'.
Proof.
  intros Hm Hf c r c' [(e & Hrun & _)|(a & c1 & Hrun & Hrest)]%Cell_bind_inv.
  - by apply Hm in Hrun.
  - apply evolves_trans with c1; [by apply Hm in Hrun|by apply Hf in Hrest].
Qed.

Lemma show_evolves ev c : ev ∈ messages → evolves c (show ev c).
Proof.
  intros Hev. unfold evolves, show. cbn [environ replies screen]. repeat split; try done.
  - exists [ev]. split; [done|]. by constructor.
  - by exists [].
Qed.

Lemma print_evolves text c r c' :
  Printed text ∈ messages → print text c = (r, c') → evolves c c'.
Proof. intros Hev [= <- <-]. by apply show_evolves. Qed.

Lemma read_evolves ev c r c' :
  ev ∈ messages → read ev c = (r, c') → evolves c c'.
Proof.
  intros Hev. unfold read. destruct (replies c) as [|reply rest] eqn:Hreplies.
  - intros [= <- <-]. by apply show_evolves.
  - intros [= <- <-]. unfold evolves. cbn [environ replies screen]. repeat split; try done.
    + exists [ev]. split; [done|]. by constructor.
    + by exists [reply].
Qed.

Lemma setenv_evolves key value c r c' :
  key ∈ ["LANGSMITH_TRACING"; "LANGSMITH_API_KEY"; "OPENAI_API_KEY"] →
  (key ≠ "LANGSMITH_TRACING" → unset (environ c !! key) = true) →
  setenv storable key value c = (r, c') → evolves c c'.
Proof.
  intros Hkey Hunset. unfold setenv. destruct (storable value).
  2: { intros [= <- <-]. apply evolves_refl. }
  intros [= <- <-]. unfold evolves. cbn [environ replies screen]. repeat split.
  - intros k Hk. apply lookup_insert_ne. by intros ->.
  - intros k v Hk Hv Hne. destruct (decide (key = k)) as [->|Hdiff].
    + assert (k ≠ "LANGSMITH_TRACING") as Hk'.
      { intros ->. apply elem_of_cons in Hk as [Hk|Hk]; [done|].
        apply elem_of_cons in Hk as [Hk|Hk]; [done|].
        by apply elem_of_nil in Hk. }
      specialize (Hunset Hk'). unfold str in *. rewrite Hv in Hunset.
      by destruct v.
    + by rewrite lookup_insert_ne.
  - intros k Hk. destruct (decide (key = k)) as [->|Hdiff].
    + rewrite lookup_insert_eq. by eexists.
    + by rewrite lookup_insert_ne.
  - exists []. by rewrite app_nil_r.
  - by exists [].
Qed.

Lemma ensure_key_evolves key prompt already_set c r c' :
  key ∈ ["LANGSMITH_API_KEY"; "OPENAI_API_KEY"] →
  PromptedSecret prompt ∈ messages →
  Printed already_set ∈ messages →
  ensure_key storable key prompt already_set c = (r, c') → evolves c c'.
Proof.
  intros Hkey Hprompt Hmsg. unfold ensure_key.
  intros [(e & Hrun & _)|(current & c1 & Hrun & Hrest)]%Cell_bind_inv;
    [done|].
  injection Hrun as <- <-.
  destruct (unset (environ c !! key)) eqn:Hunset.
  - apply Cell_bind_inv in Hrest
      as [(e & Hrun & _)|(secret & c1 & Hrun & Hrest)].
    + by apply read_evolves in Hrun.
    + apply evolves_trans with c1; [by apply read_evolves in Hrun|].
      apply setenv_evolves in Hrest; [done|by constructor|].
      intros _. unfold getpass, read in Hrun.
      destruct (replies c); injection Hrun as _ <-; done.
  - by apply print_evolves in Hrest.
Qed.

Lemma setup_evolves c r c' : setup storable c = (r, c') → evolves c c'.
Proof.
  unfold setup.
  apply evolves_bind; [intros ???; apply print_evolves; by repeat constructor|intros _].
  apply evolves_bind; [intros ???; apply print_evolves; by repeat constructor|intros _].
  apply evolves_bind; [intros ???; apply read_evolves; by repeat constructor|intros reply].
  apply evolves_bind;
    [intros ???; apply setenv_evolves; [by constructor|done]|intros _].
  apply evolves_bind;
    [intros ???; apply ensure_key_evolves; by repeat constructor|intros _].
  apply evolves_bind;
    [intros ???; apply ensure_key_evolves; by repeat constructor|intros _].
  apply evolves_bind; [intros ???; apply print_evolves; by repeat constructor|intros _].
  intros ???. apply print_evolves. by repeat constructor.
Qed.

End CellFacts.

Section CellRuns.
Import Setup.
Variable storable : str → bool.
Implicit Types (c : console) (key : string) (ev : event).

Lemma read_ok ev c reply rest :
  replies c = reply :: rest →
  read ev c = (inr reply, Console (environ c) rest (screen c ++ [ev])).
Proof. unfold read. by intros ->. Qed.

Lemma read_eof ev c :
  replies c = [] → read ev c = (inl EOFError, show ev c).
Proof. unfold read. by intros ->. Qed.

Lemma setenv_ok key value c :
  storable value = true →
  setenv storable key value c
  = (inr tt, Console (<[key := value]> (environ c)) (replies c) (screen c)).
Proof. unfold setenv. by intros ->. Qed.

Lemma unset_false c key v :
  environ c !! key = Some v → v ≠ [] → unset (environ c !! key) = false.
Proof. unfold str in *. intros -> Hne. by destruct v. Qed.

(** A key that is set and non-empty is reported and left alone. *)
Lemma ensure_key_set key prompt already_set c v :
  environ c !! key = Some v → v ≠ [] →
  ensure_key storable key prompt already_set c
  = (inr tt, show (Printed already_set) c).
Proof.
  intros Hv Hne. unfold ensure_key.
  rewrite (Cell_bind_ok _ _ c (environ c !! key) c) by done.
  by rewrite (unset_false _ _ _ Hv Hne).
Qed.

(** A key that is missing or empty is asked for and stored as typed. *)
Lemma ensure_key_asks key prompt already_set c secret rest :
  unset (environ c !! key) = true →
  replies c = secret :: rest →
  storable secret = true →
  ensure_key storable key prompt already_set c
  = (inr tt, Console (<[key := secret]> (environ c)) rest
               (screen c ++ [PromptedSecret prompt])).
Proof.
  intros Hunset Hreplies Hok. unfold ensure_key.
  rewrite (Cell_bind_ok _ _ c (environ c !! key) c) by done.
  rewrite Hunset. unfold getpass.
  rewrite (Cell_bind_ok _ _ _ _ _ (read_ok _ _ _ _ Hreplies)).
  by rewrite (setenv_ok _ _ _ Hok).
Qed.

Lemma ensure_key_eof key prompt already_set c :
  unset (environ c !! key) = true →
  replies c = [] →
  ensure_key storable key prompt already_set c
  = (inl EOFError, show (PromptedSecret prompt) c).
Proof.
  intros Hunset Hreplies. unfold ensure_key.
  rewrite (Cell_bind_ok _ _ c (environ c !! key) c) by done.
  rewrite Hunset. unfold getpass.
  by rewrite (Cell_bind_fail _ _ _ _ _ (read_eof _ _ Hreplies)).
Qed.

Lemma ensure_key_success key prompt already_set c c' :
  ensure_key storable key prompt already_set c = (inr tt, c') →
  is_Some (environ c' !! key)
  ∧ ∀ k, k ≠ key → environ c' !! k = environ c !! k.
Proof.
  unfold ensure_key.
  intros [(e & Hrun & ?)|(current & c1 & Hrun & Hrest)]%Cell_bind_inv;
    [done|].
  injection Hrun as <- <-.
  destruct (unset (environ c !! key)) eqn:Hunset.
  - apply Cell_bind_inv in Hrest
      as [(e & Hrun & ?)|(secret & c1 & Hrun & Hrest)]; [done|].
    unfold setenv in Hrest. destruct (storable secret); [|done].
    injection Hrest as <-. cbn [environ]. split.
    + rewrite lookup_insert_eq. by eexists.
    + intros k Hk. rewrite lookup_insert_ne by done.
      unfold getpass, read in Hrun.
      by destruct (replies c); injection Hrun as _ <-.
  - injection Hrest as <-. cbn [environ show]. split; [|done].
    by destruct (environ c !! key) as [[|x v]|].
Qed.

(** Up to the storing of the tracing setting, the cell runs on any
    console that has a reply whose setting the platform can store. *)
Lemma setup_after_tracing c reply rest :
  replies c = reply :: rest →
  storable (tracing_choice reply) = true →
  setup storable c
  = (ensure_key storable "LANGSMITH_API_KEY"
       (py "Enter your LangSmith API key: ")
       (check_mark ++ py " LangSmith API key already set")
     ≫= λ _,
     ensure_key storable "OPENAI_API_KEY" (py "Enter your OpenAI API key: ")
       (check_mark ++ py " OpenAI API key already set")
     ≫= λ _,
     print (py nl ++ check_mark ++ py " Environment setup complete!")
     ≫= λ _, print (py "You can now proceed with the rest of the notebook."))
      (Console (<["LANGSMITH_TRACING" := tracing_choice reply]> (environ c))
         rest
         (screen c
          ++ [ Printed (py "Please enter your API keys to get started:");
               Printed (mjoin (replicate 50 (py "=")));
               Prompted
                 (py "Enable LangSmith tracing? (true/false) [default: true]: ") ])).
Proof.
  intros Hreplies Hok. unfold setup, input.
  rewrite (Cell_bind_ok _ _ c tt
             (show (Printed (py "Please enter your API keys to get started:")) c))
    by done.
  erewrite Cell_bind_ok by done.
  erewrite Cell_bind_ok by (apply read_ok; cbn [show replies]; exact Hreplies).
  erewrite Cell_bind_ok by (by apply setenv_ok).
  cbn [show environ replies screen]. by rewrite <- !app_assoc.
Qed.

Lemma setup_no_reply c :
  replies c = [] →
  setup storable c
  = (inl EOFError,
     Console (environ c) []
       (screen c
        ++ [ Printed (py "Please enter your API keys to get started:");
             Printed (mjoin (replicate 50 (py "=")));
             Prompted
               (py "Enable LangSmith tracing? (true/false) [default: true]: ") ])).
Proof.
  intros Hreplies. unfold setup, input.
  erewrite Cell_bind_ok by reflexivity.
  erewrite Cell_bind_ok by reflexivity.
  erewrite Cell_bind_fail
    by (apply read_eof; cbn [show replies]; exact Hreplies).
  unfold show. cbn [environ replies screen].
  by rewrite Hreplies, <- !app_assoc.
Qed.

End CellRuns.

(** X13: when both API keys are already set and non-empty, the cell asks one
    question only: it stores the tracing setting, leaves both keys as
    they are, consumes a single reply and reports both keys as set. *)
Theorem setup_keeps_existing_keys (storable : str → bool) (c : Setup.console)
    (reply k1 k2 : str) (rest : list str) :
  Setup.replies c = reply :: rest →
  storable (Setup.tracing_choice reply) = true →
  Setup.environ c !! "LANGSMITH_API_KEY" = Some k1 → k1 ≠ [] →
  Setup.environ c !! "OPENAI_API_KEY" = Some k2 → k2 ≠ [] →
  Setup.setup storable c
  = (inr tt,
     Setup.Console
       (<["LANGSMITH_TRACING" := Setup.tracing_choice reply]> (Setup.environ c))
       rest
       (Setup.screen c
        ++ [ Setup.Printed (py "Please enter your API keys to get started:");
             Setup.Printed (mjoin (replicate 50 (py "=")));
             Setup.Prompted
               (py "Enable LangSmith tracing? (true/false) [default: true]: ");
             Setup.Printed
               (Setup.check_mark ++ py " LangSmith API key already set");
             Setup.Printed
               (Setup.check_mark ++ py " OpenAI API key already set");
             Setup.Printed
               (py nl ++ Setup.check_mark ++ py " Environment setup complete!");
             Setup.Printed
               (py "You can now proceed with the rest of the notebook.") ])).
Proof.
  intros Hreplies Hok Hk1 Hne1 Hk2 Hne2.
  rewrite (setup_after_tracing _ _ _ _ Hreplies Hok).
  erewrite Cell_bind_ok
    by (eapply ensure_key_set;
        [cbn [Setup.environ]; rewrite lookup_insert_ne by done; exact Hk1
        |exact Hne1]).
  erewrite Cell_bind_ok
    by (eapply ensure_key_set;
        [cbn [Setup.environ Setup.show];
         rewrite lookup_insert_ne by done; exact Hk2
        |exact Hne2]).
  erewrite Cell_bind_ok by reflexivity.
  unfold Setup.print, Setup.show.
  cbn [Setup.environ Setup.replies Setup.screen].
  by rewrite <- !app_assoc.
Qed.

Lemma setup_keeps_existing_keys_witness :
  Setup.environ
    (Setup.setup Setup.no_nul
       (Setup.Console
          {[ "LANGSMITH_API_KEY" := py "ls-key"; "OPENAI_API_KEY" := py "sk-1" ]}
          [py " false "; py "typed later"] [])).2
  = <["LANGSMITH_TRACING" := py "false"]>
      {[ "LANGSMITH_API_KEY" := py "ls-key"; "OPENAI_API_KEY" := py "sk-1" ]}
  ∧ Setup.replies
      (Setup.setup Setup.no_nul
         (Setup.Console
            {[ "LANGSMITH_API_KEY" := py "ls-key"; "OPENAI_API_KEY" := py "sk-1" ]}
            [py " false "; py "typed later"] [])).2
    = [py "typed later"].
Proof.
  rewrite (setup_keeps_existing_keys Setup.no_nul
             (Setup.Console
                {[ "LANGSMITH_API_KEY" := py "ls-key";
                   "OPENAI_API_KEY" := py "sk-1" ]}
                [py " false "; py "typed later"] [])
             (py " false ") (py "ls-key") (py "sk-1") [py "typed later"]);
    [split; reflexivity|reflexivity|reflexivity|reflexivity|discriminate
    |reflexivity|discriminate].
Defined.

(** X14: when both API keys are missing or empty, the cell asks for each in
    turn, LangSmith first, and stores what was typed as it is, without
    stripping it. *)
Theorem setup_asks_missing_keys (storable : str → bool) (c : Setup.console)
    (reply secret1 secret2 : str) (rest : list str) :
  Setup.replies c = reply :: secret1 :: secret2 :: rest →
  storable (Setup.tracing_choice reply) = true →
  storable secret1 = true →
  storable secret2 = true →
  Setup.unset (Setup.environ c !! "LANGSMITH_API_KEY") = true →
  Setup.unset (Setup.environ c !! "OPENAI_API_KEY") = true →
  Setup.setup storable c
  = (inr tt,
     Setup.Console
       (<["OPENAI_API_KEY" := secret2]>
          (<["LANGSMITH_API_KEY" := secret1]>
             (<["LANGSMITH_TRACING" := Setup.tracing_choice reply]>
                (Setup.environ c))))
       rest
       (Setup.screen c
        ++ [ Setup.Printed (py "Please enter your API keys to get started:");
             Setup.Printed (mjoin (replicate 50 (py "=")));
             Setup.Prompted
               (py "Enable LangSmith tracing? (true/false) [default: true]: ");
             Setup.PromptedSecret (py "Enter your LangSmith API key: ");
             Setup.PromptedSecret (py "Enter your OpenAI API key: ");
             Setup.Printed
               (py nl ++ Setup.check_mark ++ py " Environment setup complete!");
             Setup.Printed
               (py "You can now proceed with the rest of the notebook.") ])).
Proof.
  intros Hreplies Hok Hok1 Hok2 Hun1 Hun2.
  rewrite (setup_after_tracing _ _ _ _ Hreplies Hok).
  erewrite Cell_bind_ok
    by (eapply ensure_key_asks;
        [cbn [Setup.environ]; rewrite lookup_insert_ne by done; exact Hun1
        |reflexivity|exact Hok1]).
  erewrite Cell_bind_ok
    by (eapply ensure_key_asks;
        [cbn [Setup.environ]; rewrite !lookup_insert_ne by done; exact Hun2
        |reflexivity|exact Hok2]).
  erewrite Cell_bind_ok by reflexivity.
  unfold Setup.print, Setup.show.
  cbn [Setup.environ Setup.replies Setup.screen].
  by rewrite <- !app_assoc.
Qed.

Lemma setup_asks_missing_keys_witness :
  Setup.environ
    (Setup.setup Setup.no_nul
       (Setup.Console {[ "OPENAI_API_KEY" := [] ]}
          [py ""; py " ls-key "; py "sk-1"] [])).2
  = <["OPENAI_API_KEY" := py "sk-1"]>
      (<["LANGSMITH_API_KEY" := py " ls-key "]>
         (<["LANGSMITH_TRACING" := py "true"]> {[ "OPENAI_API_KEY" := [] ]})).
Proof.
  rewrite (setup_asks_missing_keys Setup.no_nul
             (Setup.Console {[ "OPENAI_API_KEY" := [] ]}
                [py ""; py " ls-key "; py "sk-1"] [])
             (py "") (py " ls-key ") (py "sk-1") []);
    reflexivity.
Defined.

(** X15: with nothing to read at the first prompt the cell fails with
    [EOFError] after the banner and the prompt, and the environment is
    as it was. *)
Theorem setup_eof_at_first_prompt (storable : str → bool) (c : Setup.console) :
  Setup.replies c = [] →
  Setup.setup storable c
  = (inl Setup.EOFError,
     Setup.Console (Setup.environ c) []
       (Setup.screen c
        ++ [ Setup.Printed (py "Please enter your API keys to get started:");
             Setup.Printed (mjoin (replicate 50 (py "=")));
             Setup.Prompted
               (py "Enable LangSmith tracing? (true/false) [default: true]: ") ])).
Proof. apply setup_no_reply. Qed.

Lemma setup_eof_at_first_prompt_witness :
  (Setup.setup Setup.no_nul
     (Setup.Console {[ "OPENAI_API_KEY" := py "sk-1" ]} [] [])).1
  = inl Setup.EOFError
  ∧ Setup.environ
      (Setup.setup Setup.no_nul
         (Setup.Console {[ "OPENAI_API_KEY" := py "sk-1" ]} [] [])).2
    = {[ "OPENAI_API_KEY" := py "sk-1" ]}.
Proof.
  rewrite (setup_eof_at_first_prompt Setup.no_nul
             (Setup.Console {[ "OPENAI_API_KEY" := py "sk-1" ]} [] []));
    [split; reflexivity|reflexivity].
Defined.

(** X16: a failure of the cell is not undone: when the replies run out at
    the prompt for the LangSmith key, the cell fails with [EOFError] and
    the tracing setting it stored before stays in the environment. *)
Theorem setup_fails_with_tracing_set (storable : str → bool)
    (c : Setup.console) (reply : str) :
  Setup.replies c = [reply] →
  storable (Setup.tracing_choice reply) = true →
  Setup.unset (Setup.environ c !! "LANGSMITH_API_KEY") = true →
  Setup.setup storable c
  = (inl Setup.EOFError,
     Setup.Console
       (<["LANGSMITH_TRACING" := Setup.tracing_choice reply]> (Setup.environ c))
       []
       (Setup.screen c
        ++ [ Setup.Printed (py "Please enter your API keys to get started:");
             Setup.Printed (mjoin (replicate 50 (py "=")));
             Setup.Prompted
               (py "Enable LangSmith tracing? (true/false) [default: true]: ");
             Setup.PromptedSecret (py "Enter your LangSmith API key: ") ])).
Proof.
  intros Hreplies Hok Hunset.
  rewrite (setup_after_tracing _ _ _ _ Hreplies Hok).
  erewrite Cell_bind_fail
    by (eapply ensure_key_eof;
        [cbn [Setup.environ]; rewrite lookup_insert_ne by done; exact Hunset
        |reflexivity]).
  unfold Setup.show. cbn [Setup.environ Setup.replies Setup.screen].
  by rewrite <- !app_assoc.
Qed.

Lemma setup_fails_with_tracing_set_witness :
  (Setup.setup Setup.no_nul (Setup.Console ∅ [py "false"] [])).1
  = inl Setup.EOFError
  ∧ Setup.environ
      (Setup.setup Setup.no_nul (Setup.Console ∅ [py "false"] [])).2
    = {[ "LANGSMITH_TRACING" := py "false" ]}.
Proof.
  rewrite (setup_fails_with_tracing_set Setup.no_nul
             (Setup.Console ∅ [py "false"] []) (py "false"));
    [split; reflexivity|reflexivity|reflexivity|reflexivity].
Defined.

(** X17: after a run that succeeds, the tracing variable holds the setting
    chosen from the first reply, and both API key variables are set. *)
Theorem setup_success (storable : str → bool) (c c' : Setup.console) :
  Setup.setup storable c = (inr tt, c') →
  ∃ reply rest,
    Setup.replies c = reply :: rest
    ∧ storable (Setup.tracing_choice reply) = true
    ∧ Setup.environ c' !! "LANGSMITH_TRACING"
      = Some (Setup.tracing_choice reply)
    ∧ is_Some (Setup.environ c' !! "LANGSMITH_API_KEY")
    ∧ is_Some (Setup.environ c' !! "OPENAI_API_KEY").
Proof.
  destruct (Setup.replies c) as [|reply rest] eqn:Hreplies.
  { by rewrite (setup_no_reply _ _ Hreplies). }
  intros Hrun. exists reply, rest. split; [done|].
  destruct (storable (Setup.tracing_choice reply)) eqn:Hok.
  2: { unfold Setup.setup, Setup.input in Hrun.
       erewrite Cell_bind_ok in Hrun by reflexivity.
       erewrite Cell_bind_ok in Hrun by reflexivity.
       erewrite Cell_bind_ok in Hrun
         by (apply read_ok; cbn [Setup.show Setup.replies]; exact Hreplies).
       erewrite Cell_bind_fail in Hrun; [done|].
       unfold Setup.setenv. by rewrite Hok. }
  split; [done|].
  rewrite (setup_after_tracing _ _ _ _ Hreplies Hok) in Hrun.
  apply Cell_bind_inv in Hrun as [(e & _ & ?)|([] & c1 & Hkey1 & Hrun)];
    [done|].
  apply Cell_bind_inv in Hrun as [(e & _ & ?)|([] & c2 & Hkey2 & Hrun)];
    [done|].
  apply Cell_bind_inv in Hrun as [(e & _ & ?)|([] & c3 & Hp1 & Hp2)];
    [done|].
  apply ensure_key_success in Hkey1 as [Hset1 Hframe1].
  apply ensure_key_success in Hkey2 as [Hset2 Hframe2].
  injection Hp1 as <-. injection Hp2 as <-.
  cbn [Setup.show Setup.environ] in *.
  split; [|split; [|done]].
  - rewrite Hframe2, Hframe1 by done. apply lookup_insert_eq.
  - by rewrite Hframe2.
Qed.

Lemma setup_success_witness :
  ∃ reply rest,
    Setup.replies (Setup.Console ∅ [py "  "; py "ls-key"; py "sk-1"] [])
    = reply :: rest
    ∧ Setup.no_nul (Setup.tracing_choice reply) = true
    ∧ Setup.environ
        (Setup.setup Setup.no_nul
           (Setup.Console ∅ [py "  "; py "ls-key"; py "sk-1"] [])).2
        !! "LANGSMITH_TRACING"
      = Some (Setup.tracing_choice reply)
    ∧ is_Some
        (Setup.environ
           (Setup.setup Setup.no_nul
              (Setup.Console ∅ [py "  "; py "ls-key"; py "sk-1"] [])).2
           !! "LANGSMITH_API_KEY")
    ∧ is_Some
        (Setup.environ
           (Setup.setup Setup.no_nul
              (Setup.Console ∅ [py "  "; py "ls-key"; py "sk-1"] [])).2
           !! "OPENAI_API_KEY").
Proof.
  apply (setup_success Setup.no_nul
           (Setup.Console ∅ [py "  "; py "ls-key"; py "sk-1"] [])).
  reflexivity.
Defined.

(** X18: whatever the outcome of the cell, it changes no variable other than
    its three, removes no variable, and leaves an API key that was set
    and non-empty with the value it had. *)
Theorem setup_environment (storable : str → bool) (c c' : Setup.console)
    (r : Setup.error + unit) :
  Setup.setup storable c = (r, c') →
  (∀ k, k ∉ ["LANGSMITH_TRACING"; "LANGSMITH_API_KEY"; "OPENAI_API_KEY"] →
        Setup.environ c' !! k = Setup.environ c !! k)
  ∧ (∀ k, is_Some (Setup.environ c !! k) → is_Some (Setup.environ c' !! k))
  ∧ (∀ k v, k ∈ ["LANGSMITH_API_KEY"; "OPENAI_API_KEY"] →
            Setup.environ c !! k = Some v → v ≠ [] →
            Setup.environ c' !! k = Some v).
Proof.
  intros (Hframe & Hkeys & Hsome & _ & _)%setup_evolves. done.
Qed.

Lemma setup_environment_witness :
  Setup.environ
    (Setup.setup Setup.no_nul
       (Setup.Console {[ "OPENAI_API_KEY" := py "sk-1"; "HOME" := py "/root" ]}
          [py "true"; py "ls-key"] [])).2 !! "OPENAI_API_KEY"
  = Some (py "sk-1").
Proof.
  eapply (proj2 (proj2
            (setup_environment Setup.no_nul
               (Setup.Console
                  {[ "OPENAI_API_KEY" := py "sk-1"; "HOME" := py "/root" ]}
                  [py "true"; py "ls-key"] []) _ _ (surjective_pairing _))));
    [by repeat constructor|reflexivity|discriminate].
Defined.

(** X19: whatever the outcome of the cell, every text it has passed to
    [print], [input] or [getpass.getpass] is one of its own fixed texts,
    so the cell itself never prints a reply or a value of the
    environment and never uses one as a prompt; and the replies left are
    a tail of the replies it was given. *)
Theorem setup_screen (storable : str → bool) (c c' : Setup.console)
    (r : Setup.error + unit) :
  Setup.setup storable c = (r, c') →
  (∃ shown,
     Setup.screen c' = Setup.screen c ++ shown
     ∧ Forall (.∈ Setup.messages) shown)
  ∧ (∃ used, Setup.replies c = used ++ Setup.replies c').
Proof.
  intros (_ & _ & _ & Hscreen & Hreplies)%setup_evolves. done.
Qed.

Lemma setup_screen_witness :
  (∃ shown,
     Setup.screen
       (Setup.setup Setup.no_nul
          (Setup.Console ∅ [py "true"; py "ls-key"; py "sk-1"] [])).2
     = [] ++ shown
     ∧ Forall (.∈ Setup.messages) shown)
  ∧ (∃ used,
       [py "true"; py "ls-key"; py "sk-1"]
       = used
         ++ Setup.replies
              (Setup.setup Setup.no_nul
                 (Setup.Console ∅ [py "true"; py "ls-key"; py "sk-1"] [])).2).
Proof.
  apply (setup_screen Setup.no_nul
           (Setup.Console ∅ [py "true"; py "ls-key"; py "sk-1"] []) _ _
           (surjective_pairing _)).
Defined.
